(** * xela: the superblock codec and the encrypting vault decorator

    A shallow embedding of package [crypto] (the superblock encrypter and
    decrypter) and of package [cryptvault] (the decorator that encrypts names
    and contents on their way to a storage backend), followed by the
    properties of the design document, each settled against the code. *)

From Stdlib Require Import ZArith NArith String List Bool Lia.
From Stdlib Require Import Strings.Byte.
Import ListNotations.
Local Open Scope Z_scope.

(** ** Go values: errors, panics, machine integers, byte slices *)

Module Go.

(** A Go [error] interface value: [None] is [nil], [Some msg] is an error
    whose [Error()] is [msg]. *)
Definition error : Type := option string.

(** How a call ends: it returns a value or it panics. *)
Inductive outcome (A : Type) : Type :=
| Returned (a : A)
| Panicked (msg : string).
Arguments Returned {A} a.
Arguments Panicked {A} msg.

(** Go's [int] on the 64-bit targets: two's complement with wrap-around. *)
Definition wrap (z : Z) : Z := (z + 2 ^ 63) mod 2 ^ 64 - 2 ^ 63.
Definition int_add (a b : Z) : Z := wrap (a + b).
Definition int_mul (a b : Z) : Z := wrap (a * b).

Definition byte : Type := Byte.byte.

Definition xor_byte (a b : byte) : byte :=
  match Byte.of_N (N.lxor (Byte.to_N a) (Byte.to_N b)) with
  | Some c => c
  | None => x00
  end.

(** [subtle.XORBytes]: bytewise xor over the common length. *)
Definition xor_bytes (x y : list byte) : list byte :=
  map (fun p => xor_byte (fst p) (snd p)) (combine x y).

(** [copy(dst, src)] on the contents of [dst]: the first
    [min (len dst) (len src)] bytes are replaced. *)
Definition copy (dst src : list byte) : list byte :=
  firstn (length dst) src ++ skipn (length src) dst.

(** A byte slice seen from its first element: the [len] elements it holds
    and the cells of its backing array that lie beyond them, up to [cap]. *)
Record slice : Type := mkSlice { elems : list byte; spare : list byte }.

Definition len (s : slice) : Z := Z.of_nat (length (elems s)).
Definition cap (s : slice) : Z :=
  Z.of_nat (length (elems s) + length (spare s)).
Definition array (s : slice) : list byte := elems s ++ spare s.

(** The [nil] slice, and the slice that holds exactly the given bytes. *)
Definition nil_slice : slice := mkSlice [] [].
Definition of_bytes (l : list byte) : slice := mkSlice l [].

(** [make([]byte, n, c)]. *)
Definition make (n c : Z) : outcome slice :=
  if (n <? 0) || (c <? n) then Panicked "makeslice: cap out of range"%string
  else Returned (mkSlice (repeat x00 (Z.to_nat n))
                         (repeat x00 (Z.to_nat (c - n)))).

(** The slice expression [s[lo:hi]]: for a slice the bounds must satisfy
    [0 <= lo <= hi <= cap(s)], otherwise the expression panics. *)
Definition reslice (s : slice) (lo hi : Z) : outcome slice :=
  if (0 <=? lo) && (lo <=? hi) && (hi <=? cap s) then
    Returned (mkSlice
                (firstn (Z.to_nat (hi - lo)) (skipn (Z.to_nat lo) (array s)))
                (skipn (Z.to_nat hi) (array s)))
  else Panicked "slice bounds out of range"%string.

(** Writing [data] into the backing array of [s] from cell [off] on, as a
    write through a sub-slice [s[off:...]] does; [len(s)] is unchanged. *)
Definition store (s : slice) (off : Z) (data : list byte) : slice :=
  let a := array s in
  let o := Z.to_nat off in
  let a' := firstn o a ++ copy (skipn o a) data in
  mkSlice (firstn (length (elems s)) a') (skipn (length (elems s)) a').

End Go.
Export Go.

(** ** crypto/cipher: block ciphers and the CBC mode *)

Module cipher.

(** [cipher.Block]: the block size and the two single-block functions. *)
Record Block : Type := mkBlock {
  BlockSize : Z;
  Encrypt : list byte -> list byte;
  Decrypt : list byte -> list byte;
  (** whether the CBC mode objects built over this block have a method
      [SetIV([]byte) error], which is what the type assertion
      [x.cbc.(settableIV)] tests; the modes of the Go standard library have
      a [SetIV] without a result, so for them this is [false] *)
  cbcSetIV : bool
}.

(** The CBC mode object behind a [cipher.BlockMode]: its block, its
    direction and the chaining value it carries from call to call. *)
Record BlockMode : Type := mkMode {
  blk : Block;
  decrypting : bool;
  iv : list byte
}.

(** [cipher.NewCBCDecrypter(b, iv)] and [cipher.NewCBCEncrypter(b, iv)];
    both keep a copy of [iv]. *)
Definition NewCBC (dec : bool) (b : Block) (iv : list byte)
  : outcome BlockMode :=
  if Z.of_nat (length iv) =? BlockSize b then Returned (mkMode b dec iv)
  else Panicked (if dec
                 then "cipher.NewCBCDecrypter: IV length must equal block size"
                 else "cipher.NewCBCEncrypter: IV length must equal block size")%string.

Definition NewCBCDecrypter := NewCBC true.
Definition NewCBCEncrypter := NewCBC false.

(** [SetIV(iv) error] of a mode that offers it: the chaining value is
    replaced when the length fits. *)
Definition SetIV (m : BlockMode) (v : list byte) : BlockMode * error :=
  if (length v =? length (iv m))%nat
  then (mkMode (blk m) (decrypting m) v, None)
  else (m, Some "cipher: incorrect length IV"%string).

(** The chain over [n] blocks of [bs] bytes; the result is the output and
    the chaining value left for the next call. *)
Fixpoint chain_dec (b : Block) (bs n : nat) (prev src : list byte)
  : list byte * list byte :=
  match n with
  | O => ([], prev)
  | S n' =>
      let c := firstn bs src in
      let r := chain_dec b bs n' c (skipn bs src) in
      (xor_bytes (Decrypt b c) prev ++ fst r, snd r)
  end.

Fixpoint chain_enc (b : Block) (bs n : nat) (prev src : list byte)
  : list byte * list byte :=
  match n with
  | O => ([], prev)
  | S n' =>
      let c := Encrypt b (xor_bytes (firstn bs src) prev) in
      let r := chain_enc b bs n' c (skipn bs src) in
      (c ++ fst r, snd r)
  end.

(** [BlockMode.CryptBlocks(dst, src)]: [src] must be whole blocks and [dst]
    at least as long, otherwise the call panics; only [dst[:len(src)]] is
    written.  The two buffers are separate values here, so the overlap
    check of the library has no counterpart. *)
Definition CryptBlocks (m : BlockMode) (dst : slice) (src : list byte)
  : BlockMode * slice * outcome unit :=
  let bs := BlockSize (blk m) in
  if negb (Z.of_nat (length src) mod bs =? 0) then
    (m, dst, Panicked "crypto/cipher: input not full blocks"%string)
  else if len dst <? Z.of_nat (length src) then
    (m, dst, Panicked "crypto/cipher: output smaller than input"%string)
  else if (length src =? 0)%nat then (m, dst, Returned tt)
  else
    let n := Z.to_nat (Z.of_nat (length src) / bs) in
    let r := (if decrypting m then chain_dec else chain_enc)
               (blk m) (Z.to_nat bs) n (iv m) src in
    (mkMode (blk m) (decrypting m) (snd r), store dst 0 (fst r), Returned tt).

End cipher.

(** ** crypto/aes and crypto/rand *)

Module aes.

Section Primitive.

(** The AES permutation and its inverse on one 16-byte block under an
    expanded key; the primitive itself is outside this development. *)
Variables encryptBlock decryptBlock : list byte -> list byte -> list byte.
(** Whether the CBC modes that crypto/cipher builds over an AES block
    offer [SetIV([]byte) error]. *)
Variable settable : bool.

(** [aes.NewCipher(key)]: keys of 16, 24 or 32 bytes are accepted; for
    any other the library returns a [KeySizeError], whose message ends with
    the size. *)
Definition NewCipher (key : list byte) : option cipher.Block * error :=
  match length key with
  | 16%nat | 24%nat | 32%nat =>
      (Some (cipher.mkBlock 16 (encryptBlock key) (decryptBlock key)
                            settable), None)
  | _ => (None, Some "crypto/aes: invalid key size"%string)
  end.

End Primitive.

End aes.

Module rand.

(** The secure random source: the answer to its [n]-th read, bytes or an
    error, and the number of reads made so far. *)
Record Rand : Type := mkRand {
  source : nat -> list byte * error;
  reads : nat
}.

(** [rand.Read(b)]: the next answer of the source is copied into [b]. *)
Definition Read (r : Rand) (b : list byte) : Rand * list byte * error :=
  let a := source r (reads r) in
  (mkRand (source r) (S (reads r)), copy b (fst a), snd a).

End rand.

(** ** package crypto: the superblock codec *)

Module crypto.

Import cipher.

(** A step of a function body: go on with a value, or leave the function
    with the given outcome. *)
Inductive step (A : Type) : Type :=
| Continue (a : A)
| Stop (o : outcome error).
Arguments Continue {A} a.
Arguments Stop {A} o.

Definition errKeySize : string :=
  "xela/crypto: incorrect size for decryption key".
Definition errSize : string :=
  "xela/crypto: incorrect size for src or dst parameter".
Definition nilDeref : string :=
  "runtime error: invalid memory address or nil pointer dereference".

Module XelaDecrypter.

Record t : Type := mk { b : option Block; cbc : option BlockMode }.

(** Lines 48-61: the mode object for this call, either the cached one
    with its IV reset or a new one. *)
Definition mode (x : t) (iv : list byte) : t * step BlockMode :=
  match cbc x with
  | None =>
      match b x with
      | None => (x, Stop (Panicked nilDeref))
      | Some bl =>
          match NewCBCDecrypter bl iv with
          | Panicked msg => (x, Stop (Panicked msg))
          | Returned m => (mk (b x) (Some m), Continue m)
          end
      end
  | Some m0 =>
      if cbcSetIV (blk m0) then
        match SetIV m0 iv with
        | (m, Some e) => (mk (b x) (Some m), Stop (Returned (Some e)))
        | (m, None) => (mk (b x) (Some m), Continue m)
        end
      else
        match b x with
        | None => (x, Stop (Panicked nilDeref))
        | Some bl =>
            match NewCBCDecrypter bl iv with
            | Panicked msg => (x, Stop (Panicked msg))
            | Returned m => (mk (b x) (Some m), Continue m)
            end
        end
  end.

(** [DecryptSuperblock(plaintext, ciphertext)]: the decrypter and the
    destination after the call, and how the call ended. *)
Definition DecryptSuperblock (x : t) (plaintext ciphertext : slice)
  : t * slice * outcome error :=
  if negb (len ciphertext =? 256) || negb (len plaintext =? 239) then
    (x, plaintext, Returned (Some errSize))
  else
    match reslice ciphertext 0 16 with
    | Panicked msg => (x, plaintext, Panicked msg)
    | Returned iv =>
        match mode x (elems iv) with
        | (x1, Stop o) => (x1, plaintext, o)
        | (x1, Continue m) =>
            match reslice ciphertext 16 (len ciphertext) with
            | Panicked msg => (x1, plaintext, Panicked msg)
            | Returned src =>
                match CryptBlocks m plaintext (elems src) with
                | (m', dst, Panicked msg) =>
                    (mk (b x1) (Some m'), dst, Panicked msg)
                | (m', dst, Returned _) =>
                    (mk (b x1) (Some m'), dst, Returned None)
                end
            end
        end
    end.

End XelaDecrypter.

Section Constructor.

Variables encryptBlock decryptBlock : list byte -> list byte -> list byte.
Variable settable : bool.

Definition NewXelaDecrypter (key : list byte)
  : option XelaDecrypter.t * error :=
  if negb (length key =? 32)%nat then (None, Some errKeySize)
  else
    match aes.NewCipher encryptBlock decryptBlock settable key with
    | (_, Some e) => (None, Some e)
    | (bl, None) => (Some (XelaDecrypter.mk bl None), None)
    end.

End Constructor.

Module XelaEncrypter.

Record t : Type := mk { b : option Block; cbc : option BlockMode }.

(** Line 78. *)
Definition blocksNeeded (plaintext : slice) : Z :=
  int_add (Z.quot (len plaintext) 239) (Z.rem (len plaintext) 239).

(** Lines 90-102. *)
Definition mode (x : t) (iv : list byte) : t * step BlockMode :=
  match cbc x with
  | None =>
      match b x with
      | None => (x, Stop (Panicked nilDeref))
      | Some bl =>
          match NewCBCEncrypter bl iv with
          | Panicked msg => (x, Stop (Panicked msg))
          | Returned m => (mk (b x) (Some m), Continue m)
          end
      end
  | Some m0 =>
      if cbcSetIV (blk m0) then
        match SetIV m0 iv with
        | (m, Some e) => (mk (b x) (Some m), Stop (Returned (Some e)))
        | (m, None) => (mk (b x) (Some m), Continue m)
        end
      else
        match b x with
        | None => (x, Stop (Panicked nilDeref))
        | Some bl =>
            match NewCBCEncrypter bl iv with
            | Panicked msg => (x, Stop (Panicked msg))
            | Returned m => (mk (b x) (Some m), Continue m)
            end
        end
  end.

(** What the loop of [Encrypt] carries: the encrypter, the random source,
    the IV buffer, and [c], whose backing array is the one of
    [*ciphertext]. *)
Record vars : Type := mkVars {
  x : t;
  rnd : rand.Rand;
  iv : list byte;
  c : slice
}.

(** Lines 84-104: the body of the loop at [blockIndex]. *)
Definition iteration (plaintext : slice) (s : vars) (blockIndex : Z)
  : vars * step unit :=
  match rand.Read (rnd s) (iv s) with
  | (r, v, Some e) => (mkVars (x s) r v (c s), Stop (Returned (Some e)))
  | (r, v, None) =>
      match mode (x s) v with
      | (x1, Stop o) => (mkVars x1 r v (c s), Stop o)
      | (x1, Continue m) =>
          let lo := int_add (int_mul blockIndex 256) 16 in
          match reslice (c s) lo (int_mul blockIndex 256) with
          | Panicked msg => (mkVars x1 r v (c s), Stop (Panicked msg))
          | Returned dst =>
              match reslice plaintext (int_mul blockIndex 239)
                            (int_mul (int_add blockIndex 1) 239) with
              | Panicked msg => (mkVars x1 r v (c s), Stop (Panicked msg))
              | Returned src =>
                  match CryptBlocks m dst (elems src) with
                  | (m', dst', Panicked msg) =>
                      (mkVars (mk (b x1) (Some m')) r v
                              (store (c s) lo (array dst')),
                       Stop (Panicked msg))
                  | (m', dst', Returned _) =>
                      (mkVars (mk (b x1) (Some m')) r v
                              (store (c s) lo (array dst')),
                       Continue tt)
                  end
              end
          end
      end
  end.

(** The loop of line 83, with [n] iterations left. *)
Fixpoint loop (n : nat) (plaintext : slice) (s : vars) (blockIndex : Z)
  : vars * outcome error :=
  match n with
  | O => (s, Returned None)
  | S n' =>
      match iteration plaintext s blockIndex with
      | (s', Stop o) => (s', o)
      | (s', Continue _) => loop n' plaintext s' (int_add blockIndex 1)
      end
  end.

(** [Encrypt(ciphertext, plaintext)]: the encrypter, the random source
    and [*ciphertext] after the call, and how the call ended. *)
Definition Encrypt (x0 : t) (r0 : rand.Rand) (ciphertext plaintext : slice)
  : t * rand.Rand * slice * outcome error :=
  let n := blocksNeeded plaintext in
  match make 0 (int_mul n 256) with
  | Panicked msg => (x0, r0, ciphertext, Panicked msg)
  | Returned c0 =>
      match loop (Z.to_nat n) plaintext
                 (mkVars x0 r0 (repeat x00 16) c0) 0 with
      | (s, o) => (x s, rnd s, c s, o)
      end
  end.

End XelaEncrypter.

End crypto.

(** ** package vault: the storage abstraction that is decorated *)

Module vault.

(** Modelled from the spec: package [vault] is not among the sources.  Its
    [ItemRef] constraint is the one the design document gives, a [Name()]
    accessor on every reference; [zero] is the zero value of the reference
    type, which [ItemRef[InnerRef]{}] holds. *)
Class ItemRef (R : Type) : Type := { Name : R -> string; zero : R }.

(** Modelled from the spec: the interface [vault.Vault[Ref]] is the
    capability set of the design document, with the results that the call
    sites in cryptvault.go bind; the operations read and update a store of
    type [St]. *)
Record Vault (St R K : Type) : Type := mk {
  Root : St -> St * R;
  List : R -> St -> St * (list R * error);
  Ref : R -> string -> St -> St * (R * error);
  Create : R -> string -> K -> St -> St * (R * error);
  Read : R -> St -> St * (list byte * error);
  Write : R -> list byte -> St -> St * error;
  Delete : R -> St -> St * error
}.
Arguments Root {St R K}.
Arguments List {St R K}.
Arguments Ref {St R K}.
Arguments Create {St R K}.
Arguments Read {St R K}.
Arguments Write {St R K}.
Arguments Delete {St R K}.

(** The calls a backend has received, oldest first. *)
Inductive Call (R K : Type) : Type :=
| CallRoot
| CallList (where_ : R)
| CallRef (where_ : R) (name : string)
| CallCreate (where_ : R) (name : string) (kind : K)
| CallRead (file : R)
| CallWrite (file : R) (data : list byte)
| CallDelete (item : R).
Arguments CallRoot {R K}.
Arguments CallList {R K}.
Arguments CallRef {R K}.
Arguments CallCreate {R K}.
Arguments CallRead {R K}.
Arguments CallWrite {R K}.
Arguments CallDelete {R K}.

End vault.

(** ** package crypt: key derivation and the file and filename codecs *)

Module crypt.

(** Modelled from the spec: package [crypt] is not among the sources.  Its
    types and the operations that the decorator calls are taken as
    parameters, with the signatures that the call sites in cryptvault.go
    show.  An [Encrypter] or [Decrypter] value is the codec as a call finds
    it; a method returns the codec as it leaves it. *)
Class Package : Type := {
  Salt : Type;
  KDFParameters : Type;
  Encrypter : Type;
  Decrypter : Type;
  zeroSalt : Salt;
  zeroKDFParameters : KDFParameters;
  DeriveKey : list byte -> Salt -> KDFParameters -> list byte;
  NewEncrypter : list byte -> Encrypter * error;
  NewDecrypter : list byte -> Decrypter * error;
  EncryptFilename : Encrypter -> string -> Encrypter * (string * error);
  DecryptFilename : Decrypter -> string -> Decrypter * (string * error);
  EncryptFile :
    Encrypter -> list byte -> list byte -> Encrypter * (list byte * error);
  DecryptFile :
    Decrypter -> list byte -> list byte -> Decrypter * (list byte * error)
}.

End crypt.

(** ** package cryptvault: the decorator *)

Module cryptvault.

Import crypt.

Module ItemRef.
Record t (InnerRef : Type) : Type := mk { inner : InnerRef; name : string }.
Arguments mk {InnerRef}.
Arguments inner {InnerRef}.
Arguments name {InnerRef}.
End ItemRef.

Section Decorator.

Context {P : Package}.
Context {St InnerRef ItemKind : Type} {IR : vault.ItemRef InnerRef}.

(** The anonymous struct that [Open] decodes crypt.json into. *)
Record config : Type := mkConfig {
  cSalt : Salt;
  cKDFParameters : KDFParameters
}.

(** [json.Unmarshal(data, &c)] on this struct: the struct after the call,
    and the error.  The decoder of encoding/json is a parameter. *)
Variable Unmarshal : list byte -> config -> config * error.

(** The backend's store together with the calls made on it. *)
Record World : Type := mkWorld {
  store : St;
  calls : list (vault.Call InnerRef ItemKind)
}.

Definition call {A : Type} (c : vault.Call InnerRef ItemKind)
           (op : St -> St * A) (w : World) : World * A :=
  let r := op (store w) in (mkWorld (fst r) (calls w ++ [c]), snd r).

Record Vault : Type := mkVault {
  inner : vault.Vault St InnerRef ItemKind;
  enc : Encrypter;
  dec : Decrypter
}.

(** [ItemRef[InnerRef]{}]. *)
Definition zeroItemRef : ItemRef.t InnerRef :=
  ItemRef.mk vault.zero EmptyString.

Definition Open (inner : vault.Vault St InnerRef ItemKind)
           (password : list byte) (w : World)
  : World * (option Vault * error) :=
  let (w0, root) := call vault.CallRoot (vault.Root inner) w in
  match call (vault.CallRef root "crypt.json")
             (vault.Ref inner root "crypt.json") w0 with
  | (w1, (_, Some err)) => (w1, (None, Some err))
  | (w1, (cryptJsonRef, None)) =>
      match call (vault.CallRead cryptJsonRef)
                 (vault.Read inner cryptJsonRef) w1 with
      | (w2, (_, Some err)) => (w2, (None, Some err))
      | (w2, (cryptJsonBytes, None)) =>
          (* line 39: the result of json.Unmarshal is dropped *)
          let c :=
            fst (Unmarshal cryptJsonBytes
                           (mkConfig zeroSalt zeroKDFParameters)) in
          let key := DeriveKey password (cSalt c) (cKDFParameters c) in
          match NewEncrypter key with
          | (_, Some err) => (w2, (None, Some err))
          | (e, None) =>
              match NewDecrypter key with
              | (_, Some err) => (w2, (None, Some err))
              | (d, None) => (w2, (Some (mkVault inner e d), None))
              end
          end
      end
  end.

Definition Root (v : Vault) (w : World)
  : World * ItemRef.t InnerRef :=
  let (w0, r) := call vault.CallRoot (vault.Root (inner v)) w in
  (w0, ItemRef.mk r EmptyString).

Definition decryptInnerRef (v : Vault) (innerRef : InnerRef)
  : Vault * (ItemRef.t InnerRef * error) :=
  let Name := vault.Name innerRef in
  match DecryptFilename (dec v) Name with
  | (d, (_, Some err)) =>
      (mkVault (inner v) (enc v) d, (zeroItemRef, Some err))
  | (d, (decryptedName, None)) =>
      (mkVault (inner v) (enc v) d,
       (ItemRef.mk innerRef decryptedName, None))
  end.

(** The loop of [List] (lines 74-80) over the backend's entries that are
    still to be decrypted. *)
Fixpoint listLoop (v : Vault) (repoItems : list InnerRef)
         (items : list (ItemRef.t InnerRef))
  : Vault * (list (ItemRef.t InnerRef) * error) :=
  match repoItems with
  | [] => (v, (items, None))
  | repoItem :: rest =>
      match decryptInnerRef v repoItem with
      | (v1, (_, Some err)) => (v1, ([], Some err))
      | (v1, (item, None)) => listLoop v1 rest (items ++ [item])
      end
  end.

Definition List (v : Vault) (where_ : ItemRef.t InnerRef) (w : World)
  : Vault * World * (list (ItemRef.t InnerRef) * error) :=
  match call (vault.CallList (ItemRef.inner where_))
             (vault.List (inner v) (ItemRef.inner where_)) w with
  | (w1, (_, Some err)) => (v, w1, ([], Some err))
  | (w1, (repoItems, None)) =>
      let (v1, r) := listLoop v repoItems [] in (v1, w1, r)
  end.

Definition Ref (v : Vault) (where_ : ItemRef.t InnerRef) (name : string)
           (w : World)
  : Vault * World * (ItemRef.t InnerRef * error) :=
  (v, w, (zeroItemRef, Some "xela/crypto: TODO: implement Ref"%string)).

Definition Create (v : Vault) (where_ : ItemRef.t InnerRef)
           (name : string) (kind : ItemKind) (w : World)
  : Vault * World * (ItemRef.t InnerRef * error) :=
  match EncryptFilename (enc v) name with
  | (e, (_, Some err)) =>
      (mkVault (inner v) e (dec v), w, (zeroItemRef, Some err))
  | (e, (encryptedName, None)) =>
      let v0 := mkVault (inner v) e (dec v) in
      match call (vault.CallCreate (ItemRef.inner where_)
                                   encryptedName kind)
                 (vault.Create (inner v) (ItemRef.inner where_)
                               encryptedName kind) w with
      | (w1, (_, Some err)) => (v0, w1, (zeroItemRef, Some err))
      | (w1, (repoItem, None)) =>
          let (v1, r) := decryptInnerRef v0 repoItem in (v1, w1, r)
      end
  end.

Definition Read (v : Vault) (file : ItemRef.t InnerRef) (w : World)
  : Vault * World * (list byte * error) :=
  match call (vault.CallRead (ItemRef.inner file))
             (vault.Read (inner v) (ItemRef.inner file)) w with
  | (w1, (_, Some err)) => (v, w1, ([], Some err))
  | (w1, (ciphertext, None)) =>
      let (d, r) := DecryptFile (dec v) [] ciphertext in
      (mkVault (inner v) (enc v) d, w1, r)
  end.

Definition Write (v : Vault) (file : ItemRef.t InnerRef)
           (data : list byte) (w : World)
  : Vault * World * error :=
  match EncryptFile (enc v) [] data with
  | (e, (_, Some err)) => (mkVault (inner v) e (dec v), w, Some err)
  | (e, (ciphertext, None)) =>
      let (w1, r) :=
        call (vault.CallWrite (ItemRef.inner file) ciphertext)
             (vault.Write (inner v) (ItemRef.inner file) ciphertext) w in
      (mkVault (inner v) e (dec v), w1, r)
  end.

Definition Delete (v : Vault) (item : ItemRef.t InnerRef) (w : World)
  : Vault * World * error :=
  let (w1, r) :=
    call (vault.CallDelete (ItemRef.inner item))
         (vault.Delete (inner v) (ItemRef.inner item)) w in
  (v, w1, r).

End Decorator.

Arguments config {P}.
Arguments World St InnerRef ItemKind : clear implicits.
Arguments Vault {P} St InnerRef ItemKind.

End cryptvault.

(** ** Test doubles: a toy block cipher, scripted random sources, an
    in-memory backend and a toy name and file codec *)

Module double.

Import cipher crypto crypt cryptvault.
Local Open Scope string_scope.

(** A 16-byte block "cipher" that xors every byte with 0x5a. *)
Definition mask (bs : list byte) : list byte := map (xor_byte x5a) bs.
Definition block (settable : bool) : Block := mkBlock 16 mask mask settable.

(** A stand-in for the AES primitive: the block xored with the key. *)
Definition keyedXor (key bs : list byte) : list byte := xor_bytes bs key.

(** A random source whose [n]-th read yields sixteen bytes of value [n+1],
    and one that always fails. *)
Definition counting : rand.Rand :=
  rand.mkRand
    (fun n => (repeat (match Byte.of_N (N.of_nat (n + 1)) with
                       | Some c => c
                       | None => xff
                       end) 16, None)) 0.
Definition noEntropy : string := "rand: entropy source unavailable".
Definition failing : rand.Rand :=
  rand.mkRand (fun _ => ([], Some noEntropy)) 0.

Definition key32 : list byte := repeat x2a 32.

(** The decrypter that [NewXelaDecrypter] builds for [key32] over the
    stand-in primitive, and an encrypter over the same block. *)
Definition decrypter (settable : bool) : XelaDecrypter.t :=
  XelaDecrypter.mk
    (Some (mkBlock 16 (keyedXor key32) (keyedXor key32) settable)) None.
Definition encrypter (settable : bool) : XelaEncrypter.t :=
  XelaEncrypter.mk
    (Some (mkBlock 16 (keyedXor key32) (keyedXor key32) settable)) None.

(** Raw stored names are the references; the store maps them to contents. *)
#[export] Instance rawName : vault.ItemRef string :=
  {| vault.Name := fun r => r; vault.zero := EmptyString |}.

Definition Store : Type := list (string * list byte).

Fixpoint lookup (name : string) (s : Store) : option (list byte) :=
  match s with
  | [] => None
  | (n, d) :: rest => if String.eqb n name then Some d else lookup name rest
  end.

Fixpoint update (name : string) (data : list byte) (s : Store) : Store :=
  match s with
  | [] => []
  | (n, d) :: rest =>
      if String.eqb n name then (n, data) :: rest
      else (n, d) :: update name data rest
  end.

Definition notFound : string := "memory: no such item".

Definition memory : vault.Vault Store string bool :=
  vault.mk Store string bool
    (fun s => (s, EmptyString))
    (fun _ s => (s, (map fst s, None)))
    (fun _ name s =>
       match lookup name s with
       | Some _ => (s, (name, None))
       | None => (s, (EmptyString, Some notFound))
       end)
    (fun _ name _ s => ((name, []) :: s, (name, None)))
    (fun r s =>
       match lookup r s with
       | Some d => (s, (d, None))
       | None => (s, ([], Some notFound))
       end)
    (fun r data s => (update r data s, None))
    (fun r s => (filter (fun p => negb (String.eqb (fst p) r)) s, None)).

(** A backend like [memory] that stores a new item under a name of its
    own making, the given name behind a tilde, and returns that. *)
Definition renaming : vault.Vault Store string bool :=
  vault.mk Store string bool
    (vault.Root memory) (vault.List memory) (vault.Ref memory)
    (fun _ name _ s => (("~" ++ name, []) :: s, ("~" ++ name, None)))
    (vault.Read memory) (vault.Write memory) (vault.Delete memory).

Definition corruptName : string := "toy: filename is not an encrypted name".
Definition emptyName : string := "toy: empty filename".
Definition tooLong : string := "toy: file too long".
Definition corruptFile : string := "toy: corrupt file".
Definition badKey : string := "toy: incorrect key size".

(** A toy codec: names get the prefix "enc:", files a leading byte 1; the
    codec counts its calls. *)
Definition strip (name : string) : option string :=
  if String.prefix "enc:" name
  then Some (String.substring 4 (String.length name - 4) name)
  else None.

#[export] Instance toy : Package := {|
  Salt := list byte;
  KDFParameters := nat;
  Encrypter := nat;
  Decrypter := nat;
  zeroSalt := [];
  zeroKDFParameters := O;
  DeriveKey := fun pw salt _ => firstn 32 (pw ++ salt ++ repeat x00 32);
  NewEncrypter := fun key =>
    if (length key =? 32)%nat then (O, None) else (O, Some badKey);
  NewDecrypter := fun key =>
    if (length key =? 32)%nat then (O, None) else (O, Some badKey);
  EncryptFilename := fun e name =>
    if String.eqb name "" then (S e, ("", Some emptyName))
    else (S e, ("enc:" ++ name, None));
  DecryptFilename := fun d name =>
    match strip name with
    | Some n => (S d, (n, None))
    | None => (S d, ("", Some corruptName))
    end;
  EncryptFile := fun e _ data =>
    if (4 <? length data)%nat then (S e, ([], Some tooLong))
    else (S e, (x01 :: data, None));
  DecryptFile := fun d _ ct =>
    match ct with
    | x01 :: data => (S d, (data, None))
    | _ => (S d, ([], Some corruptFile))
    end
|}.

(** A stand-in for [json.Unmarshal]: input that does not open with a brace
    is a syntax error and leaves the struct as it was. *)
Definition syntaxError : string :=
  "invalid character looking for beginning of value".
Definition toyUnmarshal (data : list byte) (c : config)
  : config * error :=
  match data with
  | x7b :: rest => (mkConfig rest 1%nat, None)
  | _ => (c, Some syntaxError)
  end.

(** A stand-in for [json.Unmarshal] on a vault whose crypt.json is the empty
    object: that document decodes with no field set and a nil error; any
    other input is reported as an error and leaves the struct as it was. *)
Definition emptyObject : list byte := [x7b; x7d].
Definition emptyObjectUnmarshal (data : list byte) (c : config)
  : config * error :=
  match data with
  | [x7b; x7d] => (c, None)
  | _ => (c, Some syntaxError)
  end.

Definition world (s : Store) : World Store string bool := mkWorld s [].

Definition v0 : Vault Store string bool := mkVault memory O O.

Definition v1 : Vault Store string bool := mkVault renaming O O.

End double.

(** ** The vocabulary of the statements *)

Module notions.

Import cipher crypto crypt cryptvault.

(** The ceiling of a quotient, as the design document writes the number of
    superblocks. *)
Definition ceiling (n d : Z) : Z := (n + d - 1) / d.

(** A decrypter as [NewXelaDecrypter] and later calls leave it: its block
    has 16-byte blocks, and the cached mode, when there is one, is a CBC
    decrypter over that block. *)
Definition keyed (bl : Block) (x : XelaDecrypter.t) : Prop :=
  XelaDecrypter.b x = Some bl /\ BlockSize bl = 16 /\
  match XelaDecrypter.cbc x with
  | None => True
  | Some m => blk m = bl /\ decrypting m = true /\ length (iv m) = 16%nat
  end.

(** What a caller sees of a call of [DecryptSuperblock]: the destination
    afterwards and how the call ended. *)
Definition written (r : XelaDecrypter.t * slice * outcome error)
  : slice * outcome error := (snd (fst r), snd r).

Definition tooSmall : string := "crypto/cipher: output smaller than input".
Definition outOfRange : string := "slice bounds out of range".

Section Names.

Context {P : Package} {InnerRef : Type} {IR : vault.ItemRef InnerRef}.

(** [decrypts d rs d' items]: decrypting the names of [rs] one after the
    other, from the decrypter [d] on, succeeds every time; it leaves the
    decrypter [d'] and gives [items]. *)
Inductive decrypts
  : Decrypter -> list InnerRef -> Decrypter ->
    list (ItemRef.t InnerRef) -> Prop :=
| decrypts_nil d : decrypts d [] d []
| decrypts_cons d r d1 s rs d2 items :
    DecryptFilename d (vault.Name r) = (d1, (s, None)) ->
    decrypts d1 rs d2 items ->
    decrypts d (r :: rs) d2 (ItemRef.mk r s :: items).

(** [fails d rs d' e]: decrypting the names of [rs] one after the other,
    from [d] on, reaches a name whose decryption fails with [e], leaving
    the decrypter [d']. *)
Inductive fails
  : Decrypter -> list InnerRef -> Decrypter -> string -> Prop :=
| fails_here d r rs d1 s e :
    DecryptFilename d (vault.Name r) = (d1, (s, Some e)) ->
    fails d (r :: rs) d1 e
| fails_later d r d1 s rs d2 e :
    DecryptFilename d (vault.Name r) = (d1, (s, None)) ->
    fails d1 rs d2 e ->
    fails d (r :: rs) d2 e.

End Names.

(** The decrypter that a sequence of calls leaves. *)
Fixpoint after (x : XelaDecrypter.t) (calls : list (slice * slice))
  : XelaDecrypter.t :=
  match calls with
  | [] => x
  | (pt, ct) :: rest =>
      after (fst (fst (XelaDecrypter.DecryptSuperblock x pt ct))) rest
  end.

(** An encrypter over a block with 16-byte blocks whose cached mode, when
    there is one, is a CBC encrypter over that block. *)
Definition ready (bl : Block) (x : XelaEncrypter.t) : Prop :=
  XelaEncrypter.b x = Some bl /\ BlockSize bl = 16 /\
  match XelaEncrypter.cbc x with
  | None => True
  | Some m => blk m = bl /\ decrypting m = false /\ length (iv m) = 16%nat
  end.

(** The backend calls that only read. *)
Definition readOnly {R K : Type} (c : vault.Call R K) : bool :=
  match c with
  | vault.CallRoot | vault.CallList _ | vault.CallRef _ _
  | vault.CallRead _ => true
  | vault.CallCreate _ _ _ | vault.CallWrite _ _ | vault.CallDelete _ => false
  end.

End notions.

(** * Properties of the superblock codec *)

Module crypto_facts.

Import cipher crypto notions.

(** ** Arithmetic on [int] and on slices *)

Ltac pow2 :=
  change (2 ^ 54) with 18014398509481984 in *;
  change (2 ^ 63) with 9223372036854775808 in *.

Lemma wrap_small (z : Z) : - 2 ^ 63 <= z < 2 ^ 63 -> wrap z = z.
Proof.
  intros H. unfold wrap.
  rewrite Z.mod_small by lia. lia.
Qed.

Lemma len_nonneg (s : slice) : 0 <= len s.
Proof. unfold len. lia. Qed.

Lemma copy_length (dst src : list byte) :
  length (copy dst src) = length dst.
Proof.
  unfold copy. rewrite length_app, length_firstn, length_skipn. lia.
Qed.

Lemma blocksNeeded_value (p : slice) :
  len p < 2 ^ 63 ->
  XelaEncrypter.blocksNeeded p = len p / 239 + len p mod 239.
Proof.
  intros H. pose proof (len_nonneg p) as H0.
  unfold XelaEncrypter.blocksNeeded, int_add.
  rewrite Z.quot_div_nonneg, Z.rem_mod_nonneg by lia.
  apply wrap_small. pow2.
  Z.div_mod_to_equations; lia.
Qed.

Lemma blocksNeeded_bounds (p : slice) :
  len p < 2 ^ 63 ->
  0 <= XelaEncrypter.blocksNeeded p <= len p /\
  (0 < len p -> 0 < XelaEncrypter.blocksNeeded p).
Proof.
  intros H. pose proof (len_nonneg p).
  rewrite blocksNeeded_value by assumption.
  split; [|intros]; Z.div_mod_to_equations; lia.
Qed.

Lemma ceiling_239 (n : Z) :
  0 <= n -> ceiling n 239 = n / 239 + (if n mod 239 =? 0 then 0 else 1).
Proof.
  intros H. unfold ceiling.
  destruct (Z.eqb_spec (n mod 239) 0) as [e|ne];
    Z.div_mod_to_equations; lia.
Qed.

Lemma make_buffer (n : Z) :
  0 <= n < 2 ^ 54 ->
  make 0 (int_mul n 256)
  = Returned (mkSlice [] (repeat x00 (Z.to_nat (n * 256)))).
Proof.
  intros H. unfold int_mul.
  rewrite wrap_small by (pow2; lia).
  unfold make.
  replace (n * 256 <? 0) with false by (symmetry; apply Z.ltb_ge; lia).
  cbn. rewrite Z.sub_0_r. reflexivity.
Qed.

(** The bounds of [c[blockIndex*256+16 : blockIndex*256]] are inverted. *)
Lemma inverted_bounds (s : slice) (i : Z) :
  0 <= i < 2 ^ 54 ->
  reslice s (int_add (int_mul i 256) 16) (int_mul i 256)
  = Panicked outOfRange.
Proof.
  intros H. unfold int_add, int_mul.
  rewrite (wrap_small (i * 256)) by (pow2; lia).
  rewrite wrap_small by (pow2; lia).
  unfold reslice.
  replace (i * 256 + 16 <=? i * 256) with false
    by (symmetry; apply Z.leb_gt; lia).
  rewrite andb_false_r. reflexivity.
Qed.

Lemma size_check (pt ct : slice) :
  negb (len ct =? 256) || negb (len pt =? 239) = false <->
  len ct = 256 /\ len pt = 239.
Proof.
  rewrite orb_false_iff, !negb_false_iff, !Z.eqb_eq. tauto.
Qed.

Lemma iv_slice (ct : slice) :
  len ct = 256 ->
  exists s, reslice ct 0 16 = Returned s /\
            elems s = firstn 16 (array ct) /\ length (elems s) = 16%nat.
Proof.
  intros H. unfold reslice.
  assert (C : 256 <= cap ct) by (unfold cap, len in *; lia).
  replace (16 <=? cap ct) with true by (symmetry; apply Z.leb_le; lia).
  cbn [Z.leb andb Z.compare]. eexists; split; [reflexivity|].
  cbn [elems]. split; [reflexivity|].
  rewrite length_firstn, length_skipn.
  unfold cap, array in *. rewrite length_app. lia.
Qed.

Lemma body_slice (ct : slice) :
  len ct = 256 ->
  exists s, reslice ct 16 (len ct) = Returned s /\
            length (elems s) = 240%nat.
Proof.
  intros H. unfold reslice.
  assert (C : 256 <= cap ct) by (unfold cap, len in *; lia).
  rewrite H.
  replace (256 <=? cap ct) with true by (symmetry; apply Z.leb_le; lia).
  cbn [Z.leb andb Z.compare]. eexists; split; [reflexivity|].
  cbn [elems]. rewrite length_firstn, length_skipn.
  unfold cap, array in *. rewrite length_app. lia.
Qed.

(** ** The cipher mode *)

Lemma CryptBlocks_short (m : BlockMode) (dst : slice) (src : list byte) :
  len dst < Z.of_nat (length src) ->
  exists msg, CryptBlocks m dst src = (m, dst, Panicked msg) /\
    (Z.of_nat (length src) mod BlockSize (blk m) = 0 -> msg = tooSmall).
Proof.
  intros H. unfold CryptBlocks.
  destruct (Z.eqb_spec (Z.of_nat (length src) mod BlockSize (blk m)) 0)
    as [e|ne]; cbn [negb].
  - replace (len dst <? Z.of_nat (length src)) with true
      by (symmetry; apply Z.ltb_lt; lia).
    eexists; split; [reflexivity | reflexivity].
  - eexists; split; [reflexivity | intros; contradiction].
Qed.

(** Case analysis along the branches of [mode], on the hypothesis that
    holds its unfolded body. *)
Ltac mode_cases H :=
  repeat match type of H with
         | context [XelaEncrypter.cbc ?x] => destruct (XelaEncrypter.cbc x)
         | context [XelaDecrypter.cbc ?x] => destruct (XelaDecrypter.cbc x)
         | context [cbcSetIV ?b] => destruct (cbcSetIV b)
         | context [(length ?a =? length ?b)%nat] =>
             destruct (length a =? length b)%nat
         | context [XelaEncrypter.b ?x] => destruct (XelaEncrypter.b x)
         | context [XelaDecrypter.b ?x] => destruct (XelaDecrypter.b x)
         | context [Z.of_nat (length ?v) =? BlockSize ?b] =>
             destruct (Z.of_nat (length v) =? BlockSize b)
         end.

Lemma enc_mode_stop (x : XelaEncrypter.t) (v : list byte) x' o :
  XelaEncrypter.mode x v = (x', Stop o) -> o <> Returned None.
Proof.
  unfold XelaEncrypter.mode, NewCBCEncrypter, NewCBC, SetIV.
  intros H. mode_cases H; inversion H; subst; discriminate.
Qed.

Lemma enc_mode_continue (x : XelaEncrypter.t) (v : list byte) x' m :
  XelaEncrypter.mode x v = (x', Continue m) ->
  iv m = v /\ XelaEncrypter.cbc x' = Some m /\
  XelaEncrypter.b x' = XelaEncrypter.b x.
Proof.
  unfold XelaEncrypter.mode, NewCBCEncrypter, NewCBC, SetIV.
  intros H.
  mode_cases H; inversion H; subst; cbn; repeat split; reflexivity.
Qed.

Lemma dec_mode_stop (x : XelaDecrypter.t) (v : list byte) x' o :
  XelaDecrypter.mode x v = (x', Stop o) ->
  (exists msg, o = Panicked msg) \/
  o = Returned (Some "cipher: incorrect length IV"%string).
Proof.
  unfold XelaDecrypter.mode, NewCBCDecrypter, NewCBC, SetIV.
  intros H. mode_cases H; inversion H; subst; eauto.
Qed.

(** On a keyed decrypter the mode for a call is the same object whether
    the cached one is reset or a new one is made. *)
Lemma dec_mode_keyed (bl : Block) (x : XelaDecrypter.t) (v : list byte) :
  keyed bl x -> length v = 16%nat ->
  XelaDecrypter.mode x v
  = (XelaDecrypter.mk (Some bl) (Some (mkMode bl true v)),
     Continue (mkMode bl true v)).
Proof.
  intros (Hb & Hs & Hc) Hv.
  unfold XelaDecrypter.mode, NewCBCDecrypter, NewCBC, SetIV.
  rewrite Hb.
  assert (E : (Z.of_nat (length v) =? BlockSize bl) = true)
    by (apply Z.eqb_eq; lia).
  destruct (XelaDecrypter.cbc x) as [m0|].
  - destruct Hc as (Hm & Hd & Hl). rewrite Hm.
    destruct (cbcSetIV bl).
    + rewrite Hd, Hl, Hv. reflexivity.
    + rewrite E. reflexivity.
  - rewrite E. reflexivity.
Qed.

(** ** Encryption *)

(** Every iteration ends the call: an error of the random source or of
    [SetIV], a panic while the mode is made, or the panic of the slice
    expression for the destination; nothing is written to [c]. *)
Lemma iteration_stops (pt : slice) (s : XelaEncrypter.vars) (i : Z) :
  0 <= i < 2 ^ 54 ->
  exists s' o,
    XelaEncrypter.iteration pt s i = (s', Stop o) /\
    o <> Returned None /\
    XelaEncrypter.c s' = XelaEncrypter.c s.
Proof.
  intros Hi. unfold XelaEncrypter.iteration.
  destruct (rand.Read (XelaEncrypter.rnd s) (XelaEncrypter.iv s))
    as [[r v] [e|]].
  - eexists _, _. repeat split. discriminate.
  - destruct (XelaEncrypter.mode (XelaEncrypter.x s) v) as [x1 [m|o]] eqn:M.
    + rewrite inverted_bounds by assumption.
      eexists _, _. repeat split. discriminate.
    + eexists _, _. repeat split. eapply enc_mode_stop; eassumption.
Qed.

Lemma loop_outcome (n : nat) (pt : slice) (s : XelaEncrypter.vars) (i : Z) :
  0 <= i < 2 ^ 54 ->
  XelaEncrypter.c (fst (XelaEncrypter.loop n pt s i)) = XelaEncrypter.c s /\
  (n <> O -> snd (XelaEncrypter.loop n pt s i) <> Returned None).
Proof.
  intros Hi. destruct n as [|n]; cbn [XelaEncrypter.loop].
  - split; [reflexivity | congruence].
  - destruct (iteration_stops pt s i Hi) as (s' & o & E & No & C).
    rewrite E. cbn. split; [exact C | intros _; exact No].
Qed.

(** C1.  [Encrypt] never completes on a plaintext that is not empty: it
    ends in an error or in a panic, so there is no ciphertext whose
    decryption could give the plaintext back. *)
Theorem Encrypt_nonempty_never_succeeds
  (x : XelaEncrypter.t) (r : rand.Rand) (ct pt : slice) :
  0 < len pt -> len pt < 2 ^ 63 ->
  snd (XelaEncrypter.Encrypt x r ct pt) <> Returned None.
Proof.
  intros Hpos Hlt. unfold XelaEncrypter.Encrypt.
  destruct (make 0 (int_mul (XelaEncrypter.blocksNeeded pt) 256))
    as [c0|msg]; [|cbn; discriminate].
  destruct (blocksNeeded_bounds pt Hlt) as [_ Hn]. specialize (Hn Hpos).
  destruct (loop_outcome (Z.to_nat (XelaEncrypter.blocksNeeded pt)) pt
              (XelaEncrypter.mkVars x r (repeat x00 16) c0) 0
              ltac:(pow2; lia))
    as [_ No].
  destruct (XelaEncrypter.loop _ _ _ _) as [s o]. cbn in *.
  apply No. lia.
Qed.

Lemma Encrypt_nonempty_never_succeeds_witness :
  snd (XelaEncrypter.Encrypt (double.encrypter false) double.counting
         nil_slice (of_bytes [x41]))
  <> Returned None.
Proof.
  apply Encrypt_nonempty_never_succeeds.
  - reflexivity.
  - reflexivity.
Defined.

(** With a block in place and a working random source, the one-byte
    plaintext makes [Encrypt] panic on the inverted slice bounds, after one
    IV has been drawn. *)
Example Encrypt_one_byte :
  match XelaEncrypter.Encrypt (double.encrypter false) double.counting
          nil_slice (of_bytes [x41]) with
  | (_, r, ct, o) => (rand.reads r, len ct, cap ct, o)
  end = (1%nat, 0, 256, Panicked outOfRange).
Proof. vm_compute. reflexivity. Qed.

Example Encrypt_empty :
  match XelaEncrypter.Encrypt (double.encrypter false) double.counting
          nil_slice (of_bytes []) with
  | (_, r, ct, o) => (rand.reads r, len ct, cap ct, o)
  end = (0%nat, 0, 0, Returned None).
Proof. vm_compute. reflexivity. Qed.

(** C2.  The number of superblocks that [Encrypt] computes,
    [len/239 + len%239], is the ceiling of [len/239] exactly when the
    remainder [len%239] is 0 or 1: it is for 239 bytes (one superblock) and
    for 240 bytes (two), and it is not for 2 bytes, where the code computes
    2 and the ceiling is 1. *)
Theorem blocksNeeded_ceiling_iff (p : slice) :
  len p < 2 ^ 63 ->
  (XelaEncrypter.blocksNeeded p = ceiling (len p) 239 <->
   len p mod 239 <= 1).
Proof.
  intros H. pose proof (len_nonneg p) as H0.
  rewrite blocksNeeded_value by assumption.
  rewrite ceiling_239 by assumption.
  pose proof (Z.mod_pos_bound (len p) 239 ltac:(lia)) as B.
  destruct (Z.eqb_spec (len p mod 239) 0); lia.
Qed.

Lemma blocksNeeded_ceiling_iff_witness :
  len (of_bytes [x00; x00]) < 2 ^ 63 /\
  XelaEncrypter.blocksNeeded (of_bytes [x00; x00]) <>
  ceiling (len (of_bytes [x00; x00])) 239.
Proof.
  assert (B : len (of_bytes [x00; x00]) < 2 ^ 63) by reflexivity.
  split; [exact B|].
  intro E.
  apply (proj1 (blocksNeeded_ceiling_iff (of_bytes [x00; x00]) B)) in E.
  vm_compute in E. apply E. reflexivity.
Defined.

Example blocksNeeded_2 :
  XelaEncrypter.blocksNeeded (of_bytes (repeat x00 2)) = 2 /\
  ceiling 2 239 = 1.
Proof. split; reflexivity. Qed.

Example blocksNeeded_239 :
  XelaEncrypter.blocksNeeded (of_bytes (repeat x00 239)) = 1.
Proof. reflexivity. Qed.

Example blocksNeeded_240 :
  XelaEncrypter.blocksNeeded (of_bytes (repeat x00 240)) = 2.
Proof. reflexivity. Qed.

Example blocksNeeded_241 :
  XelaEncrypter.blocksNeeded (of_bytes (repeat x00 241)) = 3 /\
  ceiling 241 239 = 2.
Proof. split; reflexivity. Qed.

(** C3.  Whatever the plaintext, [*ciphertext] is left with length 0 over
    a backing array of blocksNeeded*256 zero bytes: neither an IV nor any
    ciphertext is stored, and for a plaintext that is not empty the length
    is not blocksNeeded*256. *)
Theorem Encrypt_ciphertext_stays_empty
  (x : XelaEncrypter.t) (r : rand.Rand) (ct pt : slice) :
  len pt < 2 ^ 54 ->
  let ct' := snd (fst (XelaEncrypter.Encrypt x r ct pt)) in
  len ct' = 0 /\
  array ct' = repeat x00 (Z.to_nat (XelaEncrypter.blocksNeeded pt * 256)) /\
  (0 < len pt -> len ct' <> XelaEncrypter.blocksNeeded pt * 256).
Proof.
  intros Hlt.
  assert (Hlt' : len pt < 2 ^ 63) by (pow2; lia).
  destruct (blocksNeeded_bounds pt Hlt') as [Hn Hp].
  unfold XelaEncrypter.Encrypt.
  rewrite make_buffer by lia.
  pose proof (loop_outcome (Z.to_nat (XelaEncrypter.blocksNeeded pt)) pt
              (XelaEncrypter.mkVars x r (repeat x00 16)
                 (mkSlice [] (repeat x00
                    (Z.to_nat (XelaEncrypter.blocksNeeded pt * 256))))) 0
              ltac:(pow2; lia))
    as [C _].
  destruct (XelaEncrypter.loop _ _ _ _) as [s o]. cbn in *.
  rewrite C. cbn. repeat split. intros Hpos. specialize (Hp Hpos). lia.
Qed.

Lemma Encrypt_ciphertext_stays_empty_witness :
  len (snd (fst (XelaEncrypter.Encrypt (double.encrypter false)
                   double.counting nil_slice (of_bytes [x41]))))
  <> XelaEncrypter.blocksNeeded (of_bytes [x41]) * 256.
Proof.
  apply (Encrypt_ciphertext_stays_empty (double.encrypter false)
           double.counting nil_slice (of_bytes [x41])).
  - reflexivity.
  - reflexivity.
Defined.

(** What an iteration leaves of the random source and of the IV buffer is
    what its one [rand.Read] left. *)
Lemma iteration_read (pt : slice) (s : XelaEncrypter.vars) (i : Z) :
  let s' := fst (XelaEncrypter.iteration pt s i) in
  let rd := rand.Read (XelaEncrypter.rnd s) (XelaEncrypter.iv s) in
  XelaEncrypter.rnd s' = fst (fst rd) /\
  XelaEncrypter.iv s' = snd (fst rd).
Proof.
  unfold XelaEncrypter.iteration.
  destruct (rand.Read (XelaEncrypter.rnd s) (XelaEncrypter.iv s))
    as [[r v] [e|]]; cbn [fst snd]; [split; reflexivity|].
  destruct (XelaEncrypter.mode (XelaEncrypter.x s) v) as [x1 [m|o]];
    [|split; reflexivity].
  destruct (reslice (XelaEncrypter.c s) _ _) as [dst|msg];
    [|split; reflexivity].
  destruct (reslice pt _ _) as [src|msg]; [|split; reflexivity].
  destruct (CryptBlocks m dst (elems src)) as [[m' dst'] [u|msg]];
    split; reflexivity.
Qed.

(** A failed read ends the loop at once with the error of the source. *)
Lemma loop_aborts (pt : slice) (s : XelaEncrypter.vars) (i : Z) (n : nat)
      (e : string) :
  snd (rand.Read (XelaEncrypter.rnd s) (XelaEncrypter.iv s)) = Some e ->
  XelaEncrypter.loop (S n) pt s i
  = (XelaEncrypter.mkVars
       (XelaEncrypter.x s)
       (fst (fst (rand.Read (XelaEncrypter.rnd s) (XelaEncrypter.iv s))))
       (snd (fst (rand.Read (XelaEncrypter.rnd s) (XelaEncrypter.iv s))))
       (XelaEncrypter.c s),
     Returned (Some e)).
Proof.
  intros He. cbn [XelaEncrypter.loop]. unfold XelaEncrypter.iteration.
  destruct (rand.Read (XelaEncrypter.rnd s) (XelaEncrypter.iv s))
    as [[r v] err].
  cbn [fst snd] in *. subst err. reflexivity.
Qed.

(** ** Decryption *)

(** What [DecryptSuperblock] does with buffers of the mandated sizes. *)
Lemma DecryptSuperblock_sized (x : XelaDecrypter.t) (pt ct : slice) :
  len ct = 256 -> len pt = 239 ->
  exists x' o,
    XelaDecrypter.DecryptSuperblock x pt ct = (x', pt, o) /\
    ((exists msg, o = Panicked msg) \/
     o = Returned (Some "cipher: incorrect length IV"%string)) /\
    (forall bl, keyed bl x ->
       o = Panicked tooSmall /\
       x' = XelaDecrypter.mk (Some bl)
              (Some (mkMode bl true (firstn 16 (array ct))))).
Proof.
  intros Hc Hp. unfold XelaDecrypter.DecryptSuperblock.
  rewrite (proj2 (size_check pt ct) (conj Hc Hp)).
  destruct (iv_slice ct Hc) as (s & Es & Ev & Ls).
  rewrite Es.
  destruct (body_slice ct Hc) as (src & Esrc & Lsrc).
  destruct (XelaDecrypter.mode x (elems s)) as [x1 [m|o]] eqn:M.
  - rewrite Esrc.
    destruct (CryptBlocks_short m pt (elems src) ltac:(lia))
      as (msg & EC & Hmsg).
    rewrite EC. eexists _, _. split; [reflexivity|]. split; [eauto|].
    intros bl K. rewrite (dec_mode_keyed bl x (elems s) K Ls) in M.
    inversion M; subst. cbn [XelaDecrypter.b]. split.
    + f_equal. apply Hmsg. cbn [blk]. destruct K as (_ & -> & _).
      rewrite Lsrc. reflexivity.
    + rewrite Ev. reflexivity.
  - eexists _, _. split; [reflexivity|]. split.
    + eapply dec_mode_stop; eassumption.
    + intros bl K. rewrite (dec_mode_keyed bl x (elems s) K Ls) in M.
      discriminate.
Qed.

Lemma DecryptSuperblock_missized (x : XelaDecrypter.t) (pt ct : slice) :
  len ct <> 256 \/ len pt <> 239 ->
  XelaDecrypter.DecryptSuperblock x pt ct = (x, pt, Returned (Some errSize)).
Proof.
  intros H. unfold XelaDecrypter.DecryptSuperblock.
  destruct (negb (len ct =? 256) || negb (len pt =? 239)) eqn:E;
    [reflexivity|].
  apply size_check in E. lia.
Qed.

Lemma NewXelaDecrypter_keyed
  (E D : list byte -> list byte -> list byte) (settable : bool)
  (key : list byte) (x : XelaDecrypter.t) :
  NewXelaDecrypter E D settable key = (Some x, None) ->
  length key = 32%nat /\
  x = XelaDecrypter.mk (Some (mkBlock 16 (E key) (D key) settable)) None /\
  keyed (mkBlock 16 (E key) (D key) settable) x.
Proof.
  unfold NewXelaDecrypter, aes.NewCipher. intros H.
  destruct (Nat.eqb_spec (length key) 32) as [e|ne]; cbn [negb] in H;
    [|discriminate].
  rewrite e in H. inversion H; subst.
  repeat split; assumption.
Qed.

(** The mode cached by a call on a keyed decrypter keeps it keyed. *)
Lemma keyed_after (bl : Block) (x : XelaDecrypter.t) (pt ct : slice) :
  keyed bl x ->
  keyed bl (fst (fst (XelaDecrypter.DecryptSuperblock x pt ct))).
Proof.
  intros K.
  destruct (Z.eq_dec (len ct) 256) as [Hc|Hc];
    [destruct (Z.eq_dec (len pt) 239) as [Hp|Hp]|].
  - destruct (DecryptSuperblock_sized x pt ct Hc Hp) as (x' & o & E & _ & F).
    rewrite E. cbn [fst]. destruct (F bl K) as [_ ->].
    destruct (iv_slice ct Hc) as (s & _ & Ev & Ls).
    destruct K as (_ & Hs & _).
    unfold keyed. cbn [XelaDecrypter.b XelaDecrypter.cbc blk decrypting iv].
    rewrite <- Ev. repeat split; assumption.
  - rewrite DecryptSuperblock_missized by tauto. exact K.
  - rewrite DecryptSuperblock_missized by tauto. exact K.
Qed.

(** C4.  With a 256-byte superblock and a 239-byte destination
    [DecryptSuperblock] never returns nil: the destination is left as it
    was, and on a decrypter made by [NewXelaDecrypter] the call panics in
    [CryptBlocks], whose 240-byte input does not fit the 239-byte
    output. *)
Theorem DecryptSuperblock_mandated_sizes_panic
  (x : XelaDecrypter.t) (pt ct : slice) :
  len ct = 256 -> len pt = 239 ->
  exists x' o,
    XelaDecrypter.DecryptSuperblock x pt ct = (x', pt, o) /\
    o <> Returned None /\
    (forall bl, keyed bl x -> o = Panicked tooSmall).
Proof.
  intros Hc Hp.
  destruct (DecryptSuperblock_sized x pt ct Hc Hp)
    as (x' & o & E & [[msg ->]| ->] & F);
    exists x'; eexists; (split; [exact E|]);
    (split; [discriminate | intros bl K; apply (F bl K)]).
Qed.

Lemma DecryptSuperblock_mandated_sizes_panic_witness :
  written (XelaDecrypter.DecryptSuperblock (double.decrypter false)
             (of_bytes (repeat x00 239)) (of_bytes (repeat x01 256)))
  = (of_bytes (repeat x00 239), Panicked tooSmall).
Proof.
  destruct (DecryptSuperblock_mandated_sizes_panic (double.decrypter false)
              (of_bytes (repeat x00 239)) (of_bytes (repeat x01 256))
              eq_refl eq_refl) as (x' & o & E & _ & K).
  rewrite E. unfold written. cbn [fst snd]. f_equal.
  apply (K (mkBlock 16 (double.keyedXor double.key32)
                    (double.keyedXor double.key32) false)).
  repeat split.
Defined.

(** C5.  [DecryptSuperblock] returns the size error exactly when the
    ciphertext is not 256 bytes long or the destination is not 239 bytes
    long; a ciphertext of 255 or of 257 bytes is rejected with it, and the
    decrypter and the destination are left as they were. *)
Theorem DecryptSuperblock_size_error_iff
  (x : XelaDecrypter.t) (pt ct : slice) :
  (snd (XelaDecrypter.DecryptSuperblock x pt ct) = Returned (Some errSize)
   <-> len ct <> 256 \/ len pt <> 239) /\
  (len ct = 255 \/ len ct = 257 ->
   XelaDecrypter.DecryptSuperblock x pt ct
   = (x, pt, Returned (Some errSize))).
Proof.
  split.
  - split.
    + intros H.
      destruct (Z.eq_dec (len ct) 256) as [Hc|Hc]; [|tauto].
      destruct (Z.eq_dec (len pt) 239) as [Hp|Hp]; [|tauto].
      destruct (DecryptSuperblock_sized x pt ct Hc Hp)
        as (x' & o & E & [[msg ->]| ->] & _);
        rewrite E in H; cbn in H; discriminate.
    + intros H. rewrite DecryptSuperblock_missized by exact H. reflexivity.
  - intros H. apply DecryptSuperblock_missized. lia.
Qed.

Lemma DecryptSuperblock_size_error_iff_witness :
  XelaDecrypter.DecryptSuperblock (double.decrypter false)
    (of_bytes (repeat x00 239)) (of_bytes (repeat x01 257))
  = (double.decrypter false, of_bytes (repeat x00 239),
     Returned (Some errSize)).
Proof.
  apply (proj2 (DecryptSuperblock_size_error_iff (double.decrypter false)
                  (of_bytes (repeat x00 239)) (of_bytes (repeat x01 257)))).
  right. reflexivity.
Defined.

Example DecryptSuperblock_255 :
  snd (XelaDecrypter.DecryptSuperblock (double.decrypter false)
         (of_bytes (repeat x00 239)) (of_bytes (repeat x01 255)))
  = Returned (Some errSize).
Proof. vm_compute. reflexivity. Qed.

Example DecryptSuperblock_dst_240 :
  snd (XelaDecrypter.DecryptSuperblock (double.decrypter false)
         (of_bytes (repeat x00 240)) (of_bytes (repeat x01 256)))
  = Returned (Some errSize).
Proof. vm_compute. reflexivity. Qed.

End crypto_facts.

(** * Properties of the vault decorator *)

Module cryptvault_facts.

Import crypt cryptvault notions.

Section Facts.

Context {P : Package}.
Context {St InnerRef ItemKind : Type} {IR : vault.ItemRef InnerRef}.
Variable Unmarshal : list byte -> config -> config * error.

Local Abbreviation World := (World St InnerRef ItemKind).
Local Abbreviation Vault := (Vault St InnerRef ItemKind).

(** ** Open *)

(** C6.  [Open] drops the error of [json.Unmarshal]: when crypt.json is
    found and read but does not decode, [Open] goes on with the struct
    as the decoder left it, derives the key from its salt and KDF
    parameters, and returns a vault when the codecs accept the key. *)
Theorem Open_ignores_Unmarshal_error
  (backend : vault.Vault St InnerRef ItemKind) (password : list byte)
  (w w0 w1 w2 : World) (root cryptJsonRef : InnerRef)
  (cryptJsonBytes : list byte) (c : config) (e : string)
  (en : Encrypter) (de : Decrypter) :
  call vault.CallRoot (vault.Root backend) w = (w0, root) ->
  call (vault.CallRef root "crypt.json")
       (vault.Ref backend root "crypt.json") w0
  = (w1, (cryptJsonRef, None)) ->
  call (vault.CallRead cryptJsonRef) (vault.Read backend cryptJsonRef) w1
  = (w2, (cryptJsonBytes, None)) ->
  Unmarshal cryptJsonBytes (mkConfig zeroSalt zeroKDFParameters)
  = (c, Some e) ->
  NewEncrypter (DeriveKey password (cSalt c) (cKDFParameters c))
  = (en, None) ->
  NewDecrypter (DeriveKey password (cSalt c) (cKDFParameters c))
  = (de, None) ->
  Open Unmarshal backend password w
  = (w2, (Some (mkVault backend en de), None)).
Proof.
  intros HRoot HRef HRead HJson HEnc HDec.
  unfold Open. rewrite HRoot, HRef, HRead, HJson.
  cbn [fst]. rewrite HEnc, HDec. reflexivity.
Qed.

(** ** List *)

Lemma listLoop_decrypts (d d' : Decrypter) (rs : list InnerRef)
      (items : list (ItemRef.t InnerRef)) :
  decrypts d rs d' items ->
  forall (v : Vault) (acc : list (ItemRef.t InnerRef)),
    dec v = d ->
    listLoop v rs acc
    = (mkVault (inner v) (enc v) d', (acc ++ items, None)).
Proof.
  induction 1 as [d|d r d1 s rs d2 items Hd Hrest IH];
    intros v acc Ed; subst d; cbn [listLoop].
  - rewrite app_nil_r. destruct v; reflexivity.
  - unfold decryptInnerRef. rewrite Hd.
    rewrite (IH (mkVault (inner v) (enc v) d1)) by reflexivity.
    cbn [inner enc]. rewrite <- app_assoc. reflexivity.
Qed.

Lemma listLoop_fails (d d' : Decrypter) (rs : list InnerRef)
      (e : string) :
  fails d rs d' e ->
  forall (v : Vault) (acc : list (ItemRef.t InnerRef)),
    dec v = d ->
    listLoop v rs acc = (mkVault (inner v) (enc v) d', ([], Some e)).
Proof.
  induction 1 as [d r rs d1 s e Hd|d r d1 s rs d2 e Hd Hrest IH];
    intros v acc Ed; subst d; cbn [listLoop];
    unfold decryptInnerRef; rewrite Hd.
  - reflexivity.
  - rewrite (IH (mkVault (inner v) (enc v) d1)) by reflexivity.
    reflexivity.
Qed.

Lemma decrypts_shape (d d' : Decrypter) (rs : list InnerRef)
      (items : list (ItemRef.t InnerRef)) :
  decrypts d rs d' items ->
  map ItemRef.inner items = rs /\ length items = length rs.
Proof.
  induction 1 as [|d r d1 s rs d2 items _ _ [IH1 IH2]]; cbn.
  - split; reflexivity.
  - rewrite IH1, IH2. split; reflexivity.
Qed.

(** Every listing either decrypts throughout or reaches a name that
    fails. *)
Lemma decrypts_or_fails (rs : list InnerRef) (d : Decrypter) :
  (exists d' items, decrypts d rs d' items) \/
  (exists d' e, fails d rs d' e).
Proof.
  revert d. induction rs as [|r rs IH]; intros d.
  - left. exists d, []. constructor.
  - destruct (DecryptFilename d (vault.Name r)) as [d1 [s [e|]]] eqn:E.
    + right. exists d1, e. econstructor; eassumption.
    + destruct (IH d1) as [(d' & items & H)|(d' & e & H)].
      * left. exists d', (ItemRef.mk r s :: items).
        econstructor; eassumption.
      * right. exists d', e. eapply fails_later; eassumption.
Qed.

(** C7.  When the backend has listed [rs], [List] decrypts the names in
    order.  If every name decrypts, it returns one entry per backend
    entry, each the backend's reference with its decrypted name; if a
    name fails to decrypt, it returns that error and the nil list.  One
    of the two always applies. *)
Theorem List_all_or_nothing
  (v : Vault) (where_ : ItemRef.t InnerRef) (w w1 : World)
  (rs : list InnerRef) :
  call (vault.CallList (ItemRef.inner where_))
       (vault.List (inner v) (ItemRef.inner where_)) w
  = (w1, (rs, None)) ->
  (forall d' items,
      decrypts (dec v) rs d' items ->
      List v where_ w = (mkVault (inner v) (enc v) d', w1, (items, None))
      /\ map ItemRef.inner items = rs
      /\ length items = length rs) /\
  (forall d' e,
      fails (dec v) rs d' e ->
      List v where_ w = (mkVault (inner v) (enc v) d', w1, ([], Some e)))
  /\
  ((exists d' items, decrypts (dec v) rs d' items) \/
   (exists d' e, fails (dec v) rs d' e)).
Proof.
  intros HList. split; [|split].
  - intros d' items H. split.
    + unfold List. rewrite HList.
      rewrite (listLoop_decrypts _ d' rs items H v []) by reflexivity.
      reflexivity.
    + eapply decrypts_shape; eassumption.
  - intros d' e H. unfold List. rewrite HList.
    rewrite (listLoop_fails _ d' rs e H v []) by reflexivity.
    reflexivity.
  - apply decrypts_or_fails.
Qed.

(** ** Create and Write *)

(** C10.  When the filename does not encrypt, [Create] returns the error
    and the zero reference, and the backend's store and the calls made on
    it are as before: its [Create] is not called.  When the file does not
    encrypt, [Write] returns the error, and again the store and the calls
    are as before: the backend's [Write] is not called. *)
Theorem encryption_failure_leaves_backend_untouched
  (v : Vault) (w : World) :
  (forall (where_ : ItemRef.t InnerRef) (name : string) (kind : ItemKind)
          (en : Encrypter) (s : string) (e : string),
      EncryptFilename (enc v) name = (en, (s, Some e)) ->
      Create v where_ name kind w
      = (mkVault (inner v) en (dec v), w, (zeroItemRef, Some e))) /\
  (forall (file : ItemRef.t InnerRef) (data : list byte)
          (en : Encrypter) (ct : list byte) (e : string),
      EncryptFile (enc v) [] data = (en, (ct, Some e)) ->
      Write v file data w = (mkVault (inner v) en (dec v), w, Some e)).
Proof.
  split.
  - intros where_ name kind en s e H. unfold Create. rewrite H.
    reflexivity.
  - intros file data en ct e H. unfold Write. rewrite H. reflexivity.
Qed.

End Facts.

(** ** The properties on the in-memory backend and the toy codec *)

Import double.
Local Open Scope string_scope.

Lemma Open_ignores_Unmarshal_error_witness :
  Open toyUnmarshal memory [x70] (world [("crypt.json", [x21])])
  = (mkWorld [("crypt.json", [x21])]
             [vault.CallRoot; vault.CallRef "" "crypt.json";
              vault.CallRead "crypt.json"],
     (Some (mkVault memory O O), None)).
Proof.
  eapply (Open_ignores_Unmarshal_error toyUnmarshal memory [x70]
            (world [("crypt.json", [x21])]) _ _ _ "" "crypt.json" [x21]
            (mkConfig (P := toy) [] O) syntaxError O O).
  - reflexivity.
  - reflexivity.
  - reflexivity.
  - reflexivity.
  - reflexivity.
  - reflexivity.
Defined.

(** With well-formed JSON the same backend opens with the salt and the
    parameters of the file; without crypt.json [Open] fails. *)
Example Open_well_formed :
  snd (Open toyUnmarshal memory [x70] (world [("crypt.json", [x7b; x21])]))
  = (Some (mkVault memory O O), None).
Proof. reflexivity. Qed.

Example Open_missing :
  snd (Open toyUnmarshal memory [x70] (world []))
  = (None, Some notFound).
Proof. reflexivity. Qed.

Lemma List_all_or_nothing_witness :
  List v0 (ItemRef.mk "" "")
       (world [("enc:a", []); ("b", []); ("enc:c", [])])
  = (mkVault memory O 2%nat,
     mkWorld [("enc:a", []); ("b", []); ("enc:c", [])] [vault.CallList ""],
     ([], Some corruptName)).
Proof.
  eapply (proj1 (proj2 (List_all_or_nothing v0 (ItemRef.mk "" "")
                          (world [("enc:a", []); ("b", []); ("enc:c", [])])
                          _ ["enc:a"; "b"; "enc:c"] eq_refl))).
  eapply fails_later; [reflexivity|].
  eapply fails_here. reflexivity.
Defined.

Example List_all_decrypt :
  snd (List v0 (ItemRef.mk "" "") (world [("enc:a", []); ("enc:b", [])]))
  = ([ItemRef.mk "enc:a" "a"; ItemRef.mk "enc:b" "b"], None).
Proof. reflexivity. Qed.

Lemma encryption_failure_leaves_backend_untouched_witness :
  Create v0 (ItemRef.mk "" "") "" true (world [("enc:a", [])])
  = (mkVault memory 1%nat O, world [("enc:a", [])],
     (zeroItemRef, Some emptyName)) /\
  Write v0 (ItemRef.mk "enc:a" "a") [x01; x02; x03; x04; x05]
        (world [("enc:a", [])])
  = (mkVault memory 1%nat O, world [("enc:a", [])], Some tooLong).
Proof.
  split.
  - eapply (proj1 (encryption_failure_leaves_backend_untouched
                     v0 (world [("enc:a", [])]))).
    reflexivity.
  - eapply (proj2 (encryption_failure_leaves_backend_untouched
                     v0 (world [("enc:a", [])]))).
    reflexivity.
Defined.

(** When the name and the file encrypt, the backend is called. *)
Example Create_reaches_backend :
  calls (snd (fst (Create v0 (ItemRef.mk "" "") "notes.txt" false
                          (world []))))
  = [vault.CallCreate "" "enc:notes.txt" false].
Proof. reflexivity. Qed.

Example Write_reaches_backend :
  calls (snd (fst (Write v0 (ItemRef.mk "enc:a" "a") [x68; x69]
                         (world [("enc:a", [])]))))
  = [vault.CallWrite "enc:a" [x01; x68; x69]].
Proof. reflexivity. Qed.

End cryptvault_facts.

(** * Further properties of the superblock codec *)

Module crypto_more.

Import cipher crypto notions crypto_facts.

(** ** The constructor *)

(** X1.  [NewXelaDecrypter] accepts exactly the keys of 32 bytes.  Any
    other key, the 16- and 24-byte AES keys included, gives no decrypter and
    the key-size error of this package; a 32-byte key gives a decrypter over
    the AES block of that key, with no cached mode and a nil error, so the
    error of [aes.NewCipher] is never returned. *)
Theorem NewXelaDecrypter_key_size
  (E D : list byte -> list byte -> list byte) (settable : bool)
  (key : list byte) :
  (length key <> 32%nat ->
   NewXelaDecrypter E D settable key = (None, Some errKeySize)) /\
  (length key = 32%nat ->
   NewXelaDecrypter E D settable key
   = (Some (XelaDecrypter.mk (Some (mkBlock 16 (E key) (D key) settable))
                             None), None)).
Proof.
  unfold NewXelaDecrypter, aes.NewCipher. split; intros H.
  - destruct (Nat.eqb_spec (length key) 32) as [e|ne]; [contradiction|].
    reflexivity.
  - rewrite H. reflexivity.
Qed.

Lemma NewXelaDecrypter_key_size_witness :
  NewXelaDecrypter double.keyedXor double.keyedXor false (repeat x2a 16)
  = (None, Some errKeySize) /\
  NewXelaDecrypter double.keyedXor double.keyedXor false double.key32
  = (Some (double.decrypter false), None).
Proof.
  split.
  - apply (proj1 (NewXelaDecrypter_key_size double.keyedXor double.keyedXor
                    false (repeat x2a 16))).
    vm_compute. discriminate.
  - apply (proj2 (NewXelaDecrypter_key_size double.keyedXor double.keyedXor
                    false double.key32)).
    reflexivity.
Defined.

(** ** Decryption *)

Lemma dec_mode_block (x : XelaDecrypter.t) (v : list byte) :
  XelaDecrypter.b (fst (XelaDecrypter.mode x v)) = XelaDecrypter.b x.
Proof.
  unfold XelaDecrypter.mode, NewCBCDecrypter, NewCBC, SetIV.
  destruct (XelaDecrypter.cbc x) as [m0|];
    [destruct (cbcSetIV (blk m0));
     [destruct (length v =? length (iv m0))%nat; reflexivity|]|];
    (destruct (XelaDecrypter.b x) as [bl|] eqn:Eb;
     [destruct (Z.of_nat (length v) =? BlockSize bl)|];
     cbn [fst XelaDecrypter.b]; rewrite ?Eb; reflexivity).
Qed.

Lemma DecryptSuperblock_block (x : XelaDecrypter.t) (pt ct : slice) :
  XelaDecrypter.b (fst (fst (XelaDecrypter.DecryptSuperblock x pt ct)))
  = XelaDecrypter.b x.
Proof.
  unfold XelaDecrypter.DecryptSuperblock.
  destruct (negb (len ct =? 256) || negb (len pt =? 239)); [reflexivity|].
  destruct (reslice ct 0 16) as [s|msg]; [|reflexivity].
  pose proof (dec_mode_block x (elems s)) as B.
  destruct (XelaDecrypter.mode x (elems s)) as [x1 [m|o]]; cbn [fst] in B;
    [|exact B].
  destruct (reslice ct 16 (len ct)) as [src|msg]; [|exact B].
  destruct (CryptBlocks m pt (elems src)) as [[m' dst] [u|msg]]; exact B.
Qed.

(** X2.  [DecryptSuperblock] never writes to its destination and never
    replaces the block cipher of the decrypter, whatever the sizes of the
    two buffers; when a size is wrong the whole decrypter, its cached mode
    included, is left as it was. *)
Theorem DecryptSuperblock_never_writes
  (x : XelaDecrypter.t) (pt ct : slice) :
  snd (fst (XelaDecrypter.DecryptSuperblock x pt ct)) = pt /\
  XelaDecrypter.b (fst (fst (XelaDecrypter.DecryptSuperblock x pt ct)))
  = XelaDecrypter.b x /\
  (len ct <> 256 \/ len pt <> 239 ->
   fst (fst (XelaDecrypter.DecryptSuperblock x pt ct)) = x).
Proof.
  split; [|split].
  - destruct (Z.eq_dec (len ct) 256) as [Hc|Hc];
      [destruct (Z.eq_dec (len pt) 239) as [Hp|Hp]|].
    + destruct (DecryptSuperblock_sized x pt ct Hc Hp) as (x' & o & E & _).
      rewrite E. reflexivity.
    + rewrite DecryptSuperblock_missized by tauto. reflexivity.
    + rewrite DecryptSuperblock_missized by tauto. reflexivity.
  - apply DecryptSuperblock_block.
  - intros H. rewrite DecryptSuperblock_missized by exact H. reflexivity.
Qed.

Lemma DecryptSuperblock_never_writes_witness :
  fst (fst (XelaDecrypter.DecryptSuperblock (double.decrypter true)
              (of_bytes (repeat x07 10)) (of_bytes (repeat x01 256))))
  = double.decrypter true.
Proof.
  apply (proj2 (proj2 (DecryptSuperblock_never_writes
                         (double.decrypter true) (of_bytes (repeat x07 10))
                         (of_bytes (repeat x01 256))))).
  right. vm_compute. discriminate.
Defined.

Lemma after_keyed (bl : Block) (calls : list (slice * slice)) :
  forall x, keyed bl x -> keyed bl (after x calls).
Proof.
  induction calls as [|[pt ct] rest IH]; intros x K; cbn [after].
  - exact K.
  - apply IH. apply keyed_after. exact K.
Qed.

(** X3.  Whatever calls of [DecryptSuperblock] follow [NewXelaDecrypter],
    with buffers of any sizes and whether they return or panic, the
    decrypter keeps the AES block of its key, and its cached mode, once
    there is one, is a CBC decrypter over that block with a 16-byte IV. *)
Theorem decrypter_stays_keyed
  (E D : list byte -> list byte -> list byte) (settable : bool)
  (key : list byte) (x0 : XelaDecrypter.t) (calls : list (slice * slice)) :
  NewXelaDecrypter E D settable key = (Some x0, None) ->
  keyed (mkBlock 16 (E key) (D key) settable) (after x0 calls).
Proof.
  intros N. apply NewXelaDecrypter_keyed in N. destruct N as (_ & _ & K).
  apply after_keyed. exact K.
Qed.

Lemma decrypter_stays_keyed_witness :
  keyed (mkBlock 16 (double.keyedXor double.key32)
                 (double.keyedXor double.key32) true)
        (after (double.decrypter true)
               [(of_bytes (repeat x00 239), of_bytes (repeat x01 256));
                (of_bytes (repeat x00 3), of_bytes (repeat x02 256))]).
Proof.
  apply (decrypter_stays_keyed double.keyedXor double.keyedXor true
           double.key32 (double.decrypter true)).
  reflexivity.
Defined.

(** X4.  With buffers of the mandated sizes, a keyed decrypter ends the call
    with a CBC decrypter cached whose IV is the first 16 bytes of the
    superblock, whether it had a mode cached before or not. *)
Theorem DecryptSuperblock_caches_iv
  (bl : Block) (x : XelaDecrypter.t) (pt ct : slice) :
  keyed bl x -> len ct = 256 -> len pt = 239 ->
  XelaDecrypter.cbc (fst (fst (XelaDecrypter.DecryptSuperblock x pt ct)))
  = Some (mkMode bl true (firstn 16 (elems ct))).
Proof.
  intros K Hc Hp.
  destruct (DecryptSuperblock_sized x pt ct Hc Hp) as (x' & o & E & _ & F).
  rewrite E. cbn [fst]. destruct (F bl K) as [_ ->]. cbn [XelaDecrypter.cbc].
  unfold array. rewrite firstn_app.
  replace (16 - length (elems ct))%nat with O by (unfold len in Hc; lia).
  cbn [firstn]. rewrite app_nil_r. reflexivity.
Qed.

Lemma DecryptSuperblock_caches_iv_witness :
  XelaDecrypter.cbc
    (fst (fst (XelaDecrypter.DecryptSuperblock
                 (double.decrypter false) (of_bytes (repeat x00 239))
                 (of_bytes (repeat x09 16 ++ repeat x01 240)))))
  = Some (mkMode (mkBlock 16 (double.keyedXor double.key32)
                          (double.keyedXor double.key32) false)
                 true (repeat x09 16)).
Proof.
  apply (DecryptSuperblock_caches_iv
           (mkBlock 16 (double.keyedXor double.key32)
                    (double.keyedXor double.key32) false)
           (double.decrypter false) (of_bytes (repeat x00 239))
           (of_bytes (repeat x09 16 ++ repeat x01 240))).
  - repeat split.
  - reflexivity.
  - reflexivity.
Defined.

(** ** Encryption *)

(** X5.  On an empty plaintext [Encrypt] returns nil at once: [*ciphertext]
    becomes the empty slice with no capacity, the random source is not read
    and the encrypter is left as it was. *)
Theorem Encrypt_of_nothing
  (x : XelaEncrypter.t) (r : rand.Rand) (ct pt : slice) :
  len pt = 0 ->
  XelaEncrypter.Encrypt x r ct pt = (x, r, mkSlice [] [], Returned None).
Proof.
  intros H. unfold XelaEncrypter.Encrypt, XelaEncrypter.blocksNeeded.
  rewrite H. reflexivity.
Qed.

Lemma Encrypt_of_nothing_witness :
  XelaEncrypter.Encrypt (double.encrypter false) double.failing
                        (of_bytes [x01; x02]) (of_bytes [])
  = (double.encrypter false, double.failing, mkSlice [] [], Returned None).
Proof.
  apply Encrypt_of_nothing. reflexivity.
Defined.

(** X6.  The number of superblocks that [Encrypt] allocates is never less
    than the ceiling of [len/239] and never more than [len]; it is 0 exactly
    for the empty plaintext. *)
Theorem blocksNeeded_between (p : slice) :
  len p < 2 ^ 63 ->
  ceiling (len p) 239 <= XelaEncrypter.blocksNeeded p <= len p /\
  (XelaEncrypter.blocksNeeded p = 0 <-> len p = 0).
Proof.
  intros H. pose proof (len_nonneg p) as H0.
  rewrite blocksNeeded_value by assumption.
  rewrite ceiling_239 by assumption.
  destruct (Z.eqb_spec (len p mod 239) 0) as [e|ne];
    (split; [|split; intros]); Z.div_mod_to_equations; lia.
Qed.

Lemma blocksNeeded_between_witness :
  ceiling (len (of_bytes (repeat x00 300))) 239
  <= XelaEncrypter.blocksNeeded (of_bytes (repeat x00 300))
  <= len (of_bytes (repeat x00 300)).
Proof.
  apply (proj1 (blocksNeeded_between (of_bytes (repeat x00 300))
                  ltac:(reflexivity))).
Defined.

Lemma enc_mode_ready (bl : Block) (x : XelaEncrypter.t) (v : list byte) :
  ready bl x -> length v = 16%nat ->
  XelaEncrypter.mode x v
  = (XelaEncrypter.mk (Some bl) (Some (mkMode bl false v)),
     Continue (mkMode bl false v)).
Proof.
  intros (Hb & Hs & Hc) Hv.
  unfold XelaEncrypter.mode, NewCBCEncrypter, NewCBC, SetIV.
  rewrite Hb.
  assert (E : (Z.of_nat (length v) =? BlockSize bl) = true)
    by (apply Z.eqb_eq; lia).
  destruct (XelaEncrypter.cbc x) as [m0|].
  - destruct Hc as (Hm & Hd & Hl). rewrite Hm.
    destruct (cbcSetIV bl).
    + rewrite Hd, Hl, Hv. reflexivity.
    + rewrite E. reflexivity.
  - rewrite E. reflexivity.
Qed.

(** X7.  On an encrypter that is ready, with a plaintext that is not empty
    and a random source that answers, [Encrypt] draws one IV, caches a CBC
    encrypter carrying it, whether by [SetIV] or anew, and then panics on
    the bounds of the destination slice: [*ciphertext] is left with length 0
    over blocksNeeded*256 zero bytes. *)
Theorem Encrypt_ready_panics
  (bl : Block) (x : XelaEncrypter.t) (r : rand.Rand) (ct pt : slice) :
  ready bl x -> 0 < len pt -> len pt < 2 ^ 54 ->
  snd (rand.source r (rand.reads r)) = None ->
  XelaEncrypter.Encrypt x r ct pt
  = (XelaEncrypter.mk
       (Some bl)
       (Some (mkMode bl false
                (copy (repeat x00 16) (fst (rand.source r (rand.reads r)))))),
     rand.mkRand (rand.source r) (S (rand.reads r)),
     mkSlice [] (repeat x00 (Z.to_nat (XelaEncrypter.blocksNeeded pt * 256))),
     Panicked outOfRange).
Proof.
  intros R Hpos Hlt Hr.
  assert (Hlt' : len pt < 2 ^ 63) by (pow2; lia).
  destruct (blocksNeeded_bounds pt Hlt') as [Hn Hp]. specialize (Hp Hpos).
  unfold XelaEncrypter.Encrypt. rewrite make_buffer by lia.
  destruct (Z.to_nat (XelaEncrypter.blocksNeeded pt)) as [|n] eqn:En; [lia|].
  cbn [XelaEncrypter.loop]. unfold XelaEncrypter.iteration.
  unfold rand.Read. cbn [XelaEncrypter.rnd XelaEncrypter.iv XelaEncrypter.x
                         XelaEncrypter.c].
  rewrite Hr.
  rewrite (enc_mode_ready bl x _ R) by (rewrite copy_length; apply repeat_length).
  rewrite inverted_bounds by (pow2; lia).
  reflexivity.
Qed.

Lemma Encrypt_ready_panics_witness :
  XelaEncrypter.Encrypt (double.encrypter true) double.counting nil_slice
                        (of_bytes (repeat x41 240))
  = (XelaEncrypter.mk
       (Some (mkBlock 16 (double.keyedXor double.key32)
                      (double.keyedXor double.key32) true))
       (Some (mkMode (mkBlock 16 (double.keyedXor double.key32)
                              (double.keyedXor double.key32) true)
                     false (repeat x01 16))),
     rand.mkRand (rand.source double.counting) 1,
     mkSlice [] (repeat x00 512),
     Panicked outOfRange).
Proof.
  apply (Encrypt_ready_panics
           (mkBlock 16 (double.keyedXor double.key32)
                    (double.keyedXor double.key32) true)
           (double.encrypter true) double.counting nil_slice
           (of_bytes (repeat x41 240))).
  - repeat split.
  - reflexivity.
  - reflexivity.
  - reflexivity.
Defined.

Lemma enc_mode_block (x : XelaEncrypter.t) (v : list byte) :
  XelaEncrypter.b (fst (XelaEncrypter.mode x v)) = XelaEncrypter.b x.
Proof.
  unfold XelaEncrypter.mode, NewCBCEncrypter, NewCBC, SetIV.
  destruct (XelaEncrypter.cbc x) as [m0|];
    [destruct (cbcSetIV (blk m0));
     [destruct (length v =? length (iv m0))%nat; reflexivity|]|];
    (destruct (XelaEncrypter.b x) as [bl|] eqn:Eb;
     [destruct (Z.of_nat (length v) =? BlockSize bl)|];
     cbn [fst XelaEncrypter.b]; rewrite ?Eb; reflexivity).
Qed.

Lemma iteration_block (pt : slice) (s : XelaEncrypter.vars) (i : Z) :
  XelaEncrypter.b (XelaEncrypter.x (fst (XelaEncrypter.iteration pt s i)))
  = XelaEncrypter.b (XelaEncrypter.x s).
Proof.
  unfold XelaEncrypter.iteration.
  destruct (rand.Read (XelaEncrypter.rnd s) (XelaEncrypter.iv s))
    as [[r v] [e|]]; [reflexivity|].
  pose proof (enc_mode_block (XelaEncrypter.x s) v) as B.
  destruct (XelaEncrypter.mode (XelaEncrypter.x s) v) as [x1 [m|o]];
    cbn [fst] in B; [|exact B].
  destruct (reslice (XelaEncrypter.c s) _ _) as [dst|msg]; [|exact B].
  destruct (reslice pt _ _) as [src|msg]; [|exact B].
  destruct (CryptBlocks m dst (elems src)) as [[m' dst'] [u|msg]]; exact B.
Qed.

(** X8.  Whatever the encrypter and the random source, [Encrypt] never
    replaces the block cipher, and it reads the random source once for a
    plaintext that is not empty and not at all for the empty one, also when
    the plaintext fills several superblocks. *)
Theorem Encrypt_reads_once
  (x : XelaEncrypter.t) (r : rand.Rand) (ct pt : slice) :
  len pt < 2 ^ 54 ->
  XelaEncrypter.b (fst (fst (fst (XelaEncrypter.Encrypt x r ct pt))))
  = XelaEncrypter.b x /\
  snd (fst (fst (XelaEncrypter.Encrypt x r ct pt)))
  = rand.mkRand (rand.source r)
                (if len pt =? 0 then rand.reads r else S (rand.reads r)).
Proof.
  intros Hlt.
  assert (Hlt' : len pt < 2 ^ 63) by (pow2; lia).
  destruct (blocksNeeded_bounds pt Hlt') as [Hn Hp].
  pose proof (len_nonneg pt) as H0.
  destruct (Z.eqb_spec (len pt) 0) as [e|ne].
  - unfold XelaEncrypter.Encrypt, XelaEncrypter.blocksNeeded.
    rewrite e. cbn. destruct r; split; reflexivity.
  - specialize (Hp ltac:(lia)).
    unfold XelaEncrypter.Encrypt. rewrite make_buffer by lia.
    destruct (Z.to_nat (XelaEncrypter.blocksNeeded pt)) as [|n] eqn:En; [lia|].
    cbn [XelaEncrypter.loop].
    set (s0 := XelaEncrypter.mkVars x r (repeat x00 16) _).
    destruct (iteration_stops pt s0 0 ltac:(pow2; lia)) as (s' & o & E & _ & _).
    pose proof (iteration_block pt s0 0) as B.
    destruct (iteration_read pt s0 0) as [Rd _].
    rewrite E in *. cbn [fst snd] in *.
    split; [exact B | exact Rd].
Qed.

Lemma Encrypt_reads_once_witness :
  snd (fst (fst (XelaEncrypter.Encrypt (double.encrypter false)
                   double.counting nil_slice (of_bytes (repeat x41 500)))))
  = rand.mkRand (rand.source double.counting) 1.
Proof.
  apply (proj2 (Encrypt_reads_once (double.encrypter false) double.counting
                  nil_slice (of_bytes (repeat x41 500))
                  ltac:(reflexivity))).
Defined.

End crypto_more.

(** * Further properties of the vault decorator *)

Module cryptvault_more.

Import crypt cryptvault notions.

Section More.

Context {P : Package}.
Context {St InnerRef ItemKind : Type} {IR : vault.ItemRef InnerRef}.
Variable Unmarshal : list byte -> config -> config * error.

Local Abbreviation World := (World St InnerRef ItemKind).
Local Abbreviation Vault := (Vault St InnerRef ItemKind).

(** ** Open *)

(** X9.  [Open] gives either a vault and a nil error, or no vault and an
    error: never a vault together with an error, never neither. *)
Theorem Open_all_or_nothing
  (backend : vault.Vault St InnerRef ItemKind) (password : list byte)
  (w : World) :
  (exists v, snd (Open Unmarshal backend password w) = (Some v, None)) \/
  (exists e, snd (Open Unmarshal backend password w) = (None, Some e)).
Proof.
  unfold Open.
  destruct (call vault.CallRoot (vault.Root backend) w) as [w0 root].
  destruct (call _ (vault.Ref backend root "crypt.json") w0)
    as [w1 [ref [e|]]]; [right; eexists; reflexivity|].
  destruct (call _ (vault.Read backend ref) w1)
    as [w2 [bytes [e|]]]; [right; eexists; reflexivity|].
  destruct (NewEncrypter _) as [en [e|]]; [right; eexists; reflexivity|].
  destruct (NewDecrypter _) as [de [e|]]; [right; eexists; reflexivity|].
  left. eexists. reflexivity.
Qed.

(** X10.  [Open] only reads from the backend, and what it reads is fixed:
    it asks for the root, resolves crypt.json under that root and, when that
    succeeds, reads the reference that [Ref] returned, each call on the store
    the one before left.  The world after [Open] is the one these calls
    leave, whatever the password, the decoder and the codecs do; it never
    lists, creates, writes or deletes. *)
Theorem Open_only_reads
  (backend : vault.Vault St InnerRef ItemKind) (password : list byte)
  (w : World) :
  let r0 := vault.Root backend (store w) in
  let r1 := vault.Ref backend (snd r0) "crypt.json" (fst r0) in
  let r2 := vault.Read backend (fst (snd r1)) (fst r1) in
  fst (Open Unmarshal backend password w)
  = match snd (snd r1) with
    | Some _ =>
        mkWorld (fst r1)
                (calls w ++ [vault.CallRoot;
                             vault.CallRef (snd r0) "crypt.json"])
    | None =>
        mkWorld (fst r2)
                (calls w ++ [vault.CallRoot;
                             vault.CallRef (snd r0) "crypt.json";
                             vault.CallRead (fst (snd r1))])
    end /\
  exists l,
    calls (fst (Open Unmarshal backend password w)) = calls w ++ l /\
    forallb readOnly l = true.
Proof.
  cbv zeta.
  assert (A : fst (Open Unmarshal backend password w)
              = match snd (snd (vault.Ref backend
                                  (snd (vault.Root backend (store w)))
                                  "crypt.json"
                                  (fst (vault.Root backend (store w))))) with
                | Some _ =>
                    mkWorld
                      (fst (vault.Ref backend
                              (snd (vault.Root backend (store w)))
                              "crypt.json"
                              (fst (vault.Root backend (store w)))))
                      (calls w ++
                       [vault.CallRoot;
                        vault.CallRef (snd (vault.Root backend (store w)))
                                      "crypt.json"])
                | None =>
                    mkWorld
                      (fst (vault.Read backend
                              (fst (snd (vault.Ref backend
                                           (snd (vault.Root backend (store w)))
                                           "crypt.json"
                                           (fst (vault.Root backend
                                                            (store w))))))
                              (fst (vault.Ref backend
                                      (snd (vault.Root backend (store w)))
                                      "crypt.json"
                                      (fst (vault.Root backend (store w)))))))
                      (calls w ++
                       [vault.CallRoot;
                        vault.CallRef (snd (vault.Root backend (store w)))
                                      "crypt.json";
                        vault.CallRead
                          (fst (snd (vault.Ref backend
                                       (snd (vault.Root backend (store w)))
                                       "crypt.json"
                                       (fst (vault.Root backend
                                                        (store w))))))])
                end).
  { unfold Open, call. cbn [fst snd store calls].
    destruct (vault.Root backend (store w)) as [s0 root]. cbn [fst snd].
    destruct (vault.Ref backend root "crypt.json" s0) as [s1 [ref [e|]]];
      cbn [fst snd store calls].
    - rewrite <- app_assoc. reflexivity.
    - destruct (vault.Read backend ref s1) as [s2 [bytes [e|]]];
        cbn [fst snd store calls].
      + rewrite <- !app_assoc. reflexivity.
      + destruct (NewEncrypter _) as [en [e|]];
          [cbn [fst]; rewrite <- !app_assoc; reflexivity|].
        destruct (NewDecrypter _) as [de [e|]];
          cbn [fst]; rewrite <- !app_assoc; reflexivity. }
  split; [exact A|].
  rewrite A.
  destruct (snd (snd (vault.Ref backend _ "crypt.json" _)));
    eexists; split; reflexivity.
Qed.

(** X11.  A vault that [Open] returns wraps the backend it was given, and
    its encrypter and its decrypter are both made from one key: the key
    derived from the password and from the salt and KDF parameters of the
    struct decoded from the bytes that the backend's [Read] returned for the
    reference that its [Ref] gave for crypt.json under its root, both calls
    having succeeded. *)
Theorem Open_success
  (backend : vault.Vault St InnerRef ItemKind) (password : list byte)
  (w w' : World) (v : Vault) :
  Open Unmarshal backend password w = (w', (Some v, None)) ->
  let r0 := vault.Root backend (store w) in
  let r1 := vault.Ref backend (snd r0) "crypt.json" (fst r0) in
  let r2 := vault.Read backend (fst (snd r1)) (fst r1) in
  let c := fst (Unmarshal (fst (snd r2))
                          (mkConfig zeroSalt zeroKDFParameters)) in
  let key := DeriveKey password (cSalt c) (cKDFParameters c) in
  snd (snd r1) = None /\
  snd (snd r2) = None /\
  inner v = backend /\
  NewEncrypter key = (enc v, None) /\
  NewDecrypter key = (dec v, None).
Proof.
  unfold Open, call. cbn [fst snd store calls].
  destruct (vault.Root backend (store w)) as [s0 root]. cbn [fst snd].
  destruct (vault.Ref backend root "crypt.json" s0) as [s1 [ref [e|]]];
    cbn [fst snd store calls]; [discriminate|].
  destruct (vault.Read backend ref s1) as [s2 [bytes [e|]]];
    cbn [fst snd store calls]; [discriminate|].
  destruct (NewEncrypter _) as [en [e|]] eqn:HE; [discriminate|].
  destruct (NewDecrypter _) as [de [e|]] eqn:HD; [discriminate|].
  intros H. inversion H; subst.
  cbn [inner enc dec]. repeat split; assumption.
Qed.

(** ** What the operations keep *)

Lemma decryptInnerRef_keeps (v : Vault) (r : InnerRef) :
  inner (fst (decryptInnerRef v r)) = inner v /\
  enc (fst (decryptInnerRef v r)) = enc v.
Proof.
  unfold decryptInnerRef.
  destruct (DecryptFilename (dec v) (vault.Name r)) as [d [s [e|]]];
    split; reflexivity.
Qed.

Lemma listLoop_keeps (rs : list InnerRef) :
  forall (v : Vault) (acc : list (ItemRef.t InnerRef)),
    inner (fst (listLoop v rs acc)) = inner v /\
    enc (fst (listLoop v rs acc)) = enc v.
Proof.
  induction rs as [|r rs IH]; intros v acc; cbn [listLoop].
  - split; reflexivity.
  - destruct (decryptInnerRef_keeps v r) as [Hi He].
    destruct (decryptInnerRef v r) as [v1 [item [e|]]]; cbn [fst] in *.
    + split; assumption.
    + destruct (IH v1 (acc ++ [item])) as [Hi' He'].
      rewrite Hi', He'. split; assumption.
Qed.

(** X12.  No operation of a vault replaces its backend; the operations that
    decrypt ([List], [Read]) leave the encrypter as it was, [Write] leaves
    the decrypter as it was, and [Delete] and [Ref] leave both. *)
Theorem operations_keep_the_vault
  (v : Vault) (r : ItemRef.t InnerRef) (name : string) (kind : ItemKind)
  (data : list byte) (w : World) :
  (inner (fst (fst (List v r w))) = inner v /\
   enc (fst (fst (List v r w))) = enc v) /\
  (inner (fst (fst (Read v r w))) = inner v /\
   enc (fst (fst (Read v r w))) = enc v) /\
  (inner (fst (fst (Write v r data w))) = inner v /\
   dec (fst (fst (Write v r data w))) = dec v) /\
  inner (fst (fst (Create v r name kind w))) = inner v /\
  fst (fst (Delete v r w)) = v /\
  fst (fst (Ref v r name w)) = v.
Proof.
  split; [split|split; [split|split; [split|split; [|split]]]].
  - unfold List.
    destruct (call _ (vault.List (inner v) (ItemRef.inner r)) w)
      as [w1 [rs [e|]]]; [reflexivity|].
    pose proof (listLoop_keeps rs v []) as [H _].
    destruct (listLoop v rs []) as [v1 res]. exact H.
  - unfold List.
    destruct (call _ (vault.List (inner v) (ItemRef.inner r)) w)
      as [w1 [rs [e|]]]; [reflexivity|].
    pose proof (listLoop_keeps rs v []) as [_ H].
    destruct (listLoop v rs []) as [v1 res]. exact H.
  - unfold Read.
    destruct (call _ (vault.Read (inner v) (ItemRef.inner r)) w)
      as [w1 [ct [e|]]]; [reflexivity|].
    destruct (DecryptFile (dec v) [] ct) as [d res]. reflexivity.
  - unfold Read.
    destruct (call _ (vault.Read (inner v) (ItemRef.inner r)) w)
      as [w1 [ct [e|]]]; [reflexivity|].
    destruct (DecryptFile (dec v) [] ct) as [d res]. reflexivity.
  - unfold Write.
    destruct (EncryptFile (enc v) [] data) as [e [ct [err|]]]; [reflexivity|].
    destruct (call _ _ w) as [w1 res]. reflexivity.
  - unfold Write.
    destruct (EncryptFile (enc v) [] data) as [e [ct [err|]]]; [reflexivity|].
    destruct (call _ _ w) as [w1 res]. reflexivity.
  - unfold Create.
    destruct (EncryptFilename (enc v) name) as [e [n [err|]]]; [reflexivity|].
    destruct (call _ _ w) as [w1 [item [err|]]]; [reflexivity|].
    pose proof (decryptInnerRef_keeps (mkVault (inner v) e (dec v)) item)
      as [H _].
    destruct (decryptInnerRef _ item) as [v1 res]. exact H.
  - unfold Delete. destruct (call _ _ w) as [w1 res]. reflexivity.
  - reflexivity.
Qed.

(** ** The calls that reach the backend *)



(** ** Create *)

(** X15.  When the name encrypts, the backend creates the item under the
    encrypted name, and that name decrypts to the name asked for, [Create]
    returns the backend's reference with the name asked for, after one
    backend call. *)
Theorem Create_returns_the_name
  (v : Vault) (where_ : ItemRef.t InnerRef) (name : string)
  (kind : ItemKind) (w : World)
  (e : Encrypter) (n : string) (s1 : St) (item : InnerRef) (d : Decrypter) :
  EncryptFilename (enc v) name = (e, (n, None)) ->
  vault.Create (inner v) (ItemRef.inner where_) n kind (store w)
  = (s1, (item, None)) ->
  vault.Name item = n ->
  DecryptFilename (dec v) n = (d, (name, None)) ->
  Create v where_ name kind w
  = (mkVault (inner v) e d,
     mkWorld s1 (calls w ++ [vault.CallCreate (ItemRef.inner where_) n kind]),
     (ItemRef.mk item name, None)).
Proof.
  intros HE HC HN HD. unfold Create, call, decryptInnerRef.
  rewrite HE, HC. cbn [fst snd inner enc dec]. rewrite HN, HD. reflexivity.
Qed.

(** X16.  [Create] does not undo what the backend has done: when the name
    of the item that the backend created does not decrypt, [Create] returns
    that error and the zero reference, while the backend keeps the store it
    reached and has received the one [Create] call and no [Delete]. *)
Theorem Create_keeps_what_was_created
  (v : Vault) (where_ : ItemRef.t InnerRef) (name : string)
  (kind : ItemKind) (w : World)
  (e : Encrypter) (n : string) (s1 : St) (item : InnerRef) (d : Decrypter)
  (s : string) (err : string) :
  EncryptFilename (enc v) name = (e, (n, None)) ->
  vault.Create (inner v) (ItemRef.inner where_) n kind (store w)
  = (s1, (item, None)) ->
  DecryptFilename (dec v) (vault.Name item) = (d, (s, Some err)) ->
  Create v where_ name kind w
  = (mkVault (inner v) e d,
     mkWorld s1 (calls w ++ [vault.CallCreate (ItemRef.inner where_) n kind]),
     (zeroItemRef, Some err)).
Proof.
  intros HE HC HD. unfold Create, call, decryptInnerRef.
  rewrite HE, HC. cbn [fst snd inner enc dec]. rewrite HD. reflexivity.
Qed.

(** ** Errors of the backend *)

(** X17.  An error of the backend comes back to the caller as it is, and
    nothing is decrypted after it: [List], [Read] and [Create] return it
    with an empty result and the decrypter untouched, and [Write] and
    [Delete] return whatever the backend returned. *)
Theorem backend_errors_pass_through
  (v : Vault) (r : ItemRef.t InnerRef) (w : World) :
  (forall s1 rs err,
      vault.List (inner v) (ItemRef.inner r) (store w) = (s1, (rs, Some err)) ->
      snd (List v r w) = ([], Some err) /\ fst (fst (List v r w)) = v) /\
  (forall s1 ct err,
      vault.Read (inner v) (ItemRef.inner r) (store w) = (s1, (ct, Some err)) ->
      snd (Read v r w) = ([], Some err) /\ fst (fst (Read v r w)) = v) /\
  (forall name kind e n s1 item err,
      EncryptFilename (enc v) name = (e, (n, None)) ->
      vault.Create (inner v) (ItemRef.inner r) n kind (store w)
      = (s1, (item, Some err)) ->
      snd (Create v r name kind w) = (zeroItemRef, Some err) /\
      dec (fst (fst (Create v r name kind w))) = dec v) /\
  (forall data e ct,
      EncryptFile (enc v) [] data = (e, (ct, None)) ->
      snd (Write v r data w)
      = snd (vault.Write (inner v) (ItemRef.inner r) ct (store w))) /\
  snd (Delete v r w) = snd (vault.Delete (inner v) (ItemRef.inner r) (store w)).
Proof.
  split; [|split; [|split; [|split]]].
  - intros s1 rs err H. unfold List, call. rewrite H. split; reflexivity.
  - intros s1 ct err H. unfold Read, call. rewrite H. split; reflexivity.
  - intros name kind e n s1 item err HE HC. unfold Create, call.
    rewrite HE, HC. split; reflexivity.
  - intros data e ct HE. unfold Write, call. rewrite HE.
    destruct (vault.Write (inner v) (ItemRef.inner r) ct (store w)).
    reflexivity.
  - unfold Delete, call.
    destruct (vault.Delete (inner v) (ItemRef.inner r) (store w)).
    reflexivity.
Qed.

(** ** Write and Read *)

(** X18.  [Read] after [Write] gives the data back when the file encrypts,
    the backend stores it and returns what was stored, and the decrypter
    inverts the encrypter on it: the decorator hands the ciphertext to the
    backend and back unchanged. *)
Theorem Write_then_Read
  (v : Vault) (file : ItemRef.t InnerRef) (data : list byte) (w : World)
  (e : Encrypter) (ct : list byte) (s1 s2 : St) (d : Decrypter) :
  EncryptFile (enc v) [] data = (e, (ct, None)) ->
  vault.Write (inner v) (ItemRef.inner file) ct (store w) = (s1, None) ->
  vault.Read (inner v) (ItemRef.inner file) s1 = (s2, (ct, None)) ->
  DecryptFile (dec v) [] ct = (d, (data, None)) ->
  snd (Write v file data w) = None /\
  snd (Read (fst (fst (Write v file data w))) file
            (snd (fst (Write v file data w))))
  = (data, None).
Proof.
  intros HE HW HR HD. unfold Write, call. rewrite HE, HW.
  cbn [fst snd]. split; [reflexivity|].
  unfold Read, call. cbn [inner enc dec store fst snd].
  rewrite HR. cbn [fst snd]. rewrite HD. reflexivity.
Qed.

End More.

(** ** The properties on the in-memory backends and the toy codec *)

Import double.
Local Open Scope string_scope.

Lemma Open_success_witness :
  snd (snd (vault.Ref memory "" "crypt.json" [("crypt.json", emptyObject)]))
  = None /\
  snd (snd (vault.Read memory "crypt.json" [("crypt.json", emptyObject)]))
  = None /\
  inner v0 = memory /\
  NewEncrypter (DeriveKey [x70] zeroSalt zeroKDFParameters) = (enc v0, None) /\
  NewDecrypter (DeriveKey [x70] zeroSalt zeroKDFParameters) = (dec v0, None).
Proof.
  exact (Open_success emptyObjectUnmarshal memory [x70]
           (world [("crypt.json", emptyObject)]) _ v0 eq_refl).
Defined.

Lemma Create_returns_the_name_witness :
  Create v0 (ItemRef.mk "" "") "notes.txt" false (world [])
  = (mkVault memory 1%nat 1%nat,
     mkWorld [("enc:notes.txt", [])]
             [vault.CallCreate "" "enc:notes.txt" false],
     (ItemRef.mk "enc:notes.txt" "notes.txt", None)).
Proof.
  apply (Create_returns_the_name v0 (ItemRef.mk "" "") "notes.txt" false
           (world []) 1%nat "enc:notes.txt" [("enc:notes.txt", [])]
           "enc:notes.txt" 1%nat).
  - reflexivity.
  - reflexivity.
  - reflexivity.
  - reflexivity.
Defined.

Lemma Create_keeps_what_was_created_witness :
  Create v1 (ItemRef.mk "" "") "notes.txt" false (world [])
  = (mkVault renaming 1%nat 1%nat,
     mkWorld [("~enc:notes.txt", [])]
             [vault.CallCreate "" "enc:notes.txt" false],
     (zeroItemRef, Some corruptName)).
Proof.
  apply (Create_keeps_what_was_created v1 (ItemRef.mk "" "") "notes.txt"
           false (world []) 1%nat "enc:notes.txt" [("~enc:notes.txt", [])]
           "~enc:notes.txt" 1%nat "").
  - reflexivity.
  - reflexivity.
  - reflexivity.
Defined.

Lemma backend_errors_pass_through_witness :
  snd (Read v0 (ItemRef.mk "enc:gone" "gone") (world []))
  = ([], Some notFound) /\
  fst (fst (Read v0 (ItemRef.mk "enc:gone" "gone") (world []))) = v0.
Proof.
  apply (proj1 (proj2 (backend_errors_pass_through
                         v0 (ItemRef.mk "enc:gone" "gone") (world [])))
           [] [] notFound).
  reflexivity.
Defined.

Lemma Write_then_Read_witness :
  snd (Write v0 (ItemRef.mk "enc:a" "a") [x68; x69] (world [("enc:a", [])]))
  = None /\
  snd (Read (fst (fst (Write v0 (ItemRef.mk "enc:a" "a") [x68; x69]
                             (world [("enc:a", [])]))))
            (ItemRef.mk "enc:a" "a")
            (snd (fst (Write v0 (ItemRef.mk "enc:a" "a") [x68; x69]
                             (world [("enc:a", [])])))))
  = ([x68; x69], None).
Proof.
  apply (Write_then_Read v0 (ItemRef.mk "enc:a" "a") [x68; x69]
           (world [("enc:a", [])]) 1%nat [x01; x68; x69]
           [("enc:a", [x01; x68; x69])] [("enc:a", [x01; x68; x69])] 1%nat).
  - reflexivity.
  - reflexivity.
  - reflexivity.
  - reflexivity.
Defined.

End cryptvault_more.

(** * What the defects of the codec leave of two of its properties *)

Module crypto_defects.

Import cipher crypto notions crypto_facts crypto_more.

(** C8.  A plaintext of more than 239 bytes needs two superblocks or more,
    yet [Encrypt] reads the random source exactly once on it and never
    returns nil: the first iteration ends the call, so no IV is drawn for
    the second superblock or any later one.  The one read behaves as the
    loop is written: when it fails, [Encrypt] returns its error at once with
    the encrypter as it was and nothing else read; when it answers on an
    encrypter that is ready, the mode cached carries exactly the bytes
    read. *)
Theorem Encrypt_one_iv_for_many_superblocks
  (x : XelaEncrypter.t) (r : rand.Rand) (ct pt : slice) :
  239 < len pt -> len pt < 2 ^ 54 ->
  2 <= XelaEncrypter.blocksNeeded pt /\
  snd (fst (fst (XelaEncrypter.Encrypt x r ct pt)))
  = rand.mkRand (rand.source r) (S (rand.reads r)) /\
  snd (XelaEncrypter.Encrypt x r ct pt) <> Returned None /\
  (forall e,
      snd (rand.source r (rand.reads r)) = Some e ->
      XelaEncrypter.Encrypt x r ct pt
      = (x, rand.mkRand (rand.source r) (S (rand.reads r)),
         mkSlice [] (repeat x00
                       (Z.to_nat (XelaEncrypter.blocksNeeded pt * 256))),
         Returned (Some e))) /\
  (forall bl,
      ready bl x -> snd (rand.source r (rand.reads r)) = None ->
      XelaEncrypter.cbc (fst (fst (fst (XelaEncrypter.Encrypt x r ct pt))))
      = Some (mkMode bl false
                (copy (repeat x00 16)
                      (fst (rand.source r (rand.reads r)))))).
Proof.
  intros Hbig Hlt.
  assert (Hlt' : len pt < 2 ^ 63) by (pow2; lia).
  pose proof (blocksNeeded_value pt Hlt') as V.
  assert (H2 : 2 <= XelaEncrypter.blocksNeeded pt)
    by (rewrite V; Z.div_mod_to_equations; lia).
  destruct (blocksNeeded_bounds pt Hlt') as [Hn _].
  split; [exact H2|].
  unfold XelaEncrypter.Encrypt. rewrite make_buffer by lia.
  destruct (Z.to_nat (XelaEncrypter.blocksNeeded pt)) as [|n] eqn:En; [lia|].
  set (s0 := XelaEncrypter.mkVars x r (repeat x00 16) _).
  split; [|split; [|split]].
  - cbn [XelaEncrypter.loop].
    destruct (iteration_stops pt s0 0 ltac:(pow2; lia))
      as (s' & o & E & _ & _).
    destruct (iteration_read pt s0 0) as [Rd _].
    rewrite E in *. cbn [fst snd] in *. exact Rd.
  - cbn [XelaEncrypter.loop].
    destruct (iteration_stops pt s0 0 ltac:(pow2; lia))
      as (s' & o & E & No & _).
    rewrite E. cbn [fst snd]. exact No.
  - intros e He. rewrite (loop_aborts pt s0 0 n e) by exact He. reflexivity.
  - intros bl R Hr. cbn [XelaEncrypter.loop].
    unfold XelaEncrypter.iteration, rand.Read. subst s0.
    cbn [XelaEncrypter.rnd XelaEncrypter.iv XelaEncrypter.x XelaEncrypter.c].
    rewrite Hr.
    rewrite (enc_mode_ready bl x _ R)
      by (rewrite copy_length; apply repeat_length).
    rewrite inverted_bounds by (pow2; lia).
    reflexivity.
Qed.

Lemma Encrypt_one_iv_for_many_superblocks_witness :
  2 <= XelaEncrypter.blocksNeeded (of_bytes (repeat x41 240)) /\
  snd (fst (fst (XelaEncrypter.Encrypt (double.encrypter false)
                   double.counting nil_slice (of_bytes (repeat x41 240)))))
  = rand.mkRand (rand.source double.counting) 1.
Proof.
  destruct (Encrypt_one_iv_for_many_superblocks
              (double.encrypter false) double.counting nil_slice
              (of_bytes (repeat x41 240)) eq_refl eq_refl)
    as (H2 & H1 & _).
  split; [exact H2 | exact H1].
Defined.

(** The two superblocks of a 240-byte plaintext and the single read. *)
Example Encrypt_240_bytes :
  match XelaEncrypter.Encrypt (double.encrypter false) double.counting
          nil_slice (of_bytes (repeat x41 240)) with
  | (_, r, ct, o) =>
      (XelaEncrypter.blocksNeeded (of_bytes (repeat x41 240)),
       rand.reads r, len ct, o)
  end = (2, 1%nat, 0, Panicked outOfRange).
Proof. vm_compute. reflexivity. Qed.




(** Two different superblocks under one key: the same result, a panic and
    an untouched destination. *)
Example DecryptSuperblock_two_superblocks :
  written (XelaDecrypter.DecryptSuperblock (double.decrypter false)
             (of_bytes (repeat x00 239)) (of_bytes (repeat x01 256)))
  = (of_bytes (repeat x00 239), Panicked tooSmall) /\
  written (XelaDecrypter.DecryptSuperblock (double.decrypter false)
             (of_bytes (repeat x00 239)) (of_bytes (repeat x02 256)))
  = (of_bytes (repeat x00 239), Panicked tooSmall).
Proof. split; vm_compute; reflexivity. Qed.

End crypto_defects.
